(** * night_crawler: a shallow embedding of [NightCrawler] and its properties

    The development follows [night_crawler.py]:
    - Python text is a list of characters ([str]);
    - the part of the [re] module the crawler relies on ([re.compile] on the
      pattern texts it builds, [re.finditer], [re.findall]) is a small
      backtracking matcher ([Module Re]);
    - [is_useful_link], [check_page], [crawl] and [print_summary] are
      functions over an explicit process state that holds the class-level
      dictionary [URLS_CHECKED], the log of HTTP requests and the printed
      lines. *)

From Stdlib Require Import List Ascii ZArith Lia Bool Arith.
From Stdlib Require String.
Import ListNotations.
Import String.StringSyntax.
Delimit Scope string_scope with string.

(** ** Python text *)

Definition str := list ascii.

Definition lit (s : String.string) : str := String.list_ascii_of_string s.
Arguments lit s%_string.

Definition dquote : ascii := ascii_of_nat 34.
Definition squote : ascii := ascii_of_nat 39.
Definition hash : ascii := ascii_of_nat 35.
Definition newline : ascii := ascii_of_nat 10.

Definition ascii_eqb (a b : ascii) : bool := Ascii.eqb a b.

Fixpoint str_eqb (a b : str) : bool :=
  match a, b with
  | [], [] => true
  | x :: a', y :: b' => ascii_eqb x y && str_eqb a' b'
  | _, _ => false
  end.

(** [s.startswith(p)] *)
Fixpoint startswith (p s : str) : bool :=
  match p, s with
  | [], _ => true
  | x :: p', y :: s' => ascii_eqb x y && startswith p' s'
  | _ :: _, [] => false
  end.

(** [s.endswith(p)] *)
Definition endswith (p s : str) : bool := startswith (rev p) (rev s).

(** [needle in hay] *)
Fixpoint contains (needle hay : str) : bool :=
  startswith needle hay ||
  match hay with
  | [] => false
  | _ :: hay' => contains needle hay'
  end.

(** [s[i:j]] for indices [0 <= i <= j] *)
Definition slice (s : str) (i j : nat) : str := firstn (j - i) (skipn i s).

(** Characters removed by [str.strip()], among the code points below 256. *)
Definition is_space (c : ascii) : bool :=
  let n := nat_of_ascii c in
  ((9 <=? n) && (n <=? 13)) || ((28 <=? n) && (n <=? 32)) || (n =? 133) || (n =? 160).

Fixpoint lstrip (s : str) : str :=
  match s with
  | c :: s' => if is_space c then lstrip s' else s
  | [] => []
  end.

Definition strip (s : str) : str := rev (lstrip (rev (lstrip s))).

(** ** The fragment of [re] used by the crawler *)

Module Re.

(** One-character matchers: a literal character, or [.], which matches every
    character except a line feed (no [DOTALL] flag is ever passed). *)
Inductive cset :=
| CChr (c : ascii)
| CDot.

Definition cset_mem (cs : cset) (c : ascii) : bool :=
  match cs with
  | CChr d => ascii_eqb d c
  | CDot => negb (ascii_eqb c newline)
  end.

Inductive regex :=
| Eps
| One (cs : cset)
| LazyStar (cs : cset)               (* [x*?] on a one-character [x] *)
| Seq (r1 r2 : regex)
| Alt (r1 r2 : regex)
| Group (r : regex).                 (* capturing group *)

(** *** Pattern texts *)

Inductive token :=
| TChar (c : ascii)
| TDot
| TLazyStar
| TBar
| TOpen (capturing : bool)
| TClose.

(** The characters [re] gives a special meaning to. *)
Definition special : str := lit ".^$*+?{}[]\|()".

Definition is_literal (c : ascii) : bool := negb (existsb (ascii_eqb c) special).

Definition chr_is (c : ascii) (s : String.string) : bool :=
  match s with
  | String.String d String.EmptyString => ascii_eqb c d
  | _ => false
  end.
Arguments chr_is c s%_string.

(** Tokens of a pattern text; [None] outside the modelled fragment (greedy
    repetition, classes, anchors, escapes, counted repetition, extension
    groups other than [(?:]). *)
Fixpoint tokenize (p : str) : option (list token) :=
  match p with
  | [] => Some []
  | c :: p1 =>
    if is_literal c then option_map (cons (TChar c)) (tokenize p1)
    else if chr_is c "." then option_map (cons TDot) (tokenize p1)
    else if chr_is c "|" then option_map (cons TBar) (tokenize p1)
    else if chr_is c ")" then option_map (cons TClose) (tokenize p1)
    else if chr_is c "*" then
      match p1 with
      | q :: p2 => if chr_is q "?" then option_map (cons TLazyStar) (tokenize p2) else None
      | [] => None
      end
    else if chr_is c "(" then
      match p1 with
      | q :: p2 =>
        if chr_is q "?" then
          match p2 with
          | d :: p3 => if chr_is d ":" then option_map (cons (TOpen false)) (tokenize p3) else None
          | [] => None
          end
        else option_map (cons (TOpen true)) (tokenize p1)
      | [] => option_map (cons (TOpen true)) (tokenize p1)
      end
    else None
  end.

(** A group being parsed: the finished alternatives and the items of the
    current one, both most recent first. *)
Record frame := { f_alts : list regex; f_cur : list regex; f_cap : bool }.

Definition seq_of (l : list regex) : regex := fold_right Seq Eps l.

Fixpoint alt_of (r : regex) (l : list regex) : regex :=
  match l with
  | [] => r
  | r' :: l' => Alt r (alt_of r' l')
  end.

Definition close (f : frame) : regex :=
  let body :=
    match rev (seq_of (rev (f_cur f)) :: f_alts f) with
    | [] => Eps
    | r :: l => alt_of r l
    end in
  if f_cap f then Group body else body.

Definition push (r : regex) (f : frame) : frame :=
  {| f_alts := f_alts f; f_cur := r :: f_cur f; f_cap := f_cap f |}.

Fixpoint parse (ts : list token) (cur : frame) (stack : list frame) : option regex :=
  match ts with
  | [] => match stack with [] => Some (close cur) | _ :: _ => None end
  | TChar c :: ts' => parse ts' (push (One (CChr c)) cur) stack
  | TDot :: ts' => parse ts' (push (One CDot) cur) stack
  | TLazyStar :: ts' =>
    match f_cur cur with
    | One cs :: rest =>
      parse ts' {| f_alts := f_alts cur; f_cur := LazyStar cs :: rest; f_cap := f_cap cur |} stack
    | _ => None
    end
  | TBar :: ts' =>
    parse ts' {| f_alts := seq_of (rev (f_cur cur)) :: f_alts cur; f_cur := []; f_cap := f_cap cur |} stack
  | TOpen cap :: ts' => parse ts' {| f_alts := []; f_cur := []; f_cap := cap |} (cur :: stack)
  | TClose :: ts' =>
    match stack with
    | [] => None
    | parent :: stack' => parse ts' (push (close cur) parent) stack'
    end
  end.

Fixpoint groups (r : regex) : nat :=
  match r with
  | Eps | One _ | LazyStar _ => 0
  | Seq r1 r2 | Alt r1 r2 => groups r1 + groups r2
  | Group r1 => S (groups r1)
  end.

(** [re.compile(p)] on the modelled fragment; patterns with more than one
    capturing group (for which [findall] yields tuples) are left out too. *)
Definition compile (p : str) : option regex :=
  match tokenize p with
  | None => None
  | Some ts =>
    match parse ts {| f_alts := []; f_cur := []; f_cap := false |} [] with
    | None => None
    | Some r => if groups r <=? 1 then Some r else None
    end
  end.

(** *** Matching: leftmost, backtracking in priority order *)

Fixpoint lazy_star {R} (cs : cset) (k : str -> option R) (s : str) : option R :=
  match k s with
  | Some x => Some x
  | None =>
    match s with
    | c :: s' => if cset_mem cs c then lazy_star cs k s' else None
    | [] => None
    end
  end.

(** [run r s g k]: match [r] at the front of [s], with [g] the text of the
    capturing group so far, and hand the rest of the text to [k]; a [None]
    from [k] makes the matcher try its next choice. *)
Fixpoint run {R} (r : regex) (s : str) (g : option str)
    (k : str -> option str -> option R) : option R :=
  match r with
  | Eps => k s g
  | One cs =>
    match s with
    | c :: s' => if cset_mem cs c then k s' g else None
    | [] => None
    end
  | LazyStar cs => lazy_star cs (fun s' => k s' g) s
  | Seq r1 r2 => run r1 s g (fun s' g' => run r2 s' g' k)
  | Alt r1 r2 =>
    match run r1 s g k with
    | Some x => Some x
    | None => run r2 s g k
    end
  | Group r1 => run r1 s g (fun s' _ => k s' (Some (firstn (length s - length s') s)))
  end.

(** A match: where it starts, the matched text and the text of the group. *)
Record found := { m_start : nat; m_text : str; m_group : option str }.

(** The match of [r] starting exactly at the front of [s] (at offset [pos]);
    with [must_advance] an empty match is refused. *)
Definition match_at (r : regex) (must_advance : bool) (pos : nat) (s : str) : option found :=
  run r s None (fun s' g =>
    let n := length s - length s' in
    if must_advance && (n =? 0) then None
    else Some {| m_start := pos; m_text := firstn n s; m_group := g |}).

(** The successive matches from left to right. [skip] characters are passed
    over first (the tail of the previous match). After an empty match the
    search resumes at the same place but must advance. *)
Fixpoint scan (r : regex) (pos skip : nat) (s : str) : list found :=
  match skip with
  | S k =>
    match s with
    | [] => []
    | _ :: s' => scan r (S pos) k s'
    end
  | O =>
    match match_at r false pos s with
    | None =>
      match s with
      | [] => []
      | _ :: s' => scan r (S pos) 0 s'
      end
    | Some f =>
      f ::
      match length (m_text f) with
      | S n =>
        match s with
        | [] => []
        | _ :: s' => scan r (S pos) n s'
        end
      | O =>
        match match_at r true pos s with
        | None =>
          match s with
          | [] => []
          | _ :: s' => scan r (S pos) 0 s'
          end
        | Some f' =>
          f' ::
          match s with
          | [] => []
          | _ :: s' => scan r (S pos) (pred (length (m_text f'))) s'
          end
        end
      end
    end
  end.

(** [re.finditer(r, content)] *)
Definition finditer (r : regex) (content : str) : list found := scan r 0 0 content.

(** [re.findall(r, content)]: the text of the group when the pattern has
    one (empty when it took no part in the match), else the matched text. *)
Definition findall (r : regex) (content : str) : list str :=
  map (fun f =>
         match groups r with
         | O => m_text f
         | S _ => match m_group f with Some g => g | None => [] end
         end)
      (finditer r content).

End Re.

(** [re.finditer(pattern, content)] and [re.findall(pattern, content)] on a
    pattern text; [None] when the pattern is outside the fragment. *)
Definition re_finditer (pattern content : str) : option (list Re.found) :=
  option_map (fun r => Re.finditer r content) (Re.compile pattern).

Definition re_findall (pattern content : str) : option (list str) :=
  option_map (fun r => Re.findall r content) (Re.compile pattern).

(** ** Dictionaries, in insertion order *)

Definition dict := list (str * Z).

Definition keys (d : dict) : list str := map fst d.

(** [k in d] *)
Definition dict_mem (k : str) (d : dict) : bool := existsb (str_eqb k) (keys d).

(** [d[k] = v] *)
Fixpoint dict_set (k : str) (v : Z) (d : dict) : dict :=
  match d with
  | [] => [(k, v)]
  | (k', v') :: d' => if str_eqb k k' then (k', v) :: d' else (k', v') :: dict_set k v d'
  end.

(** ** The crawler *)

Definition FILETYPES_TO_IGNORE : list str :=
  [lit ".pdf"; lit ".svg"; lit ".png"; lit ".css"; lit ".ico"; lit ".js"].

Definition STR_CONTEXT_SIZE : nat := 30.

(** The attributes [__init__] stores on an instance. *)
Record NightCrawler := {
  base_domain : str;
  unwanted_terms : list (str * Z);     (* term -> threshold, in insertion order *)
  use_link_lookup : bool;
  verbose_level : Z
}.

Definition __init__ (base : str) (terms : list (str * Z)) (link_lookup : bool) (verbose : Z)
  : NightCrawler :=
  {| base_domain := base; unwanted_terms := terms;
     use_link_lookup := link_lookup; verbose_level := verbose |}.

(** The lines the crawler prints, unformatted. *)
Inductive message :=
| MsgRule                                        (* '-' * 10 *)
| MsgSkip (url : str)
| MsgInit (url : str)
| MsgError (url : str)
| MsgFoundLinks (url : str) (count : Z) (term : str)
| MsgLink (url occurrence : str)
| MsgFoundHtml (url : str) (count : Z) (term : str)
| MsgHtml (url substr : str)
| MsgPagesClear
| MsgClearUrl (url : str)
| MsgPagesWithTerms
| MsgUrlQty (url : str) (qty : Z)
| MsgTotals
| MsgPagesChecked (n : nat)
| MsgPagesCleared (n : nat)
| MsgPagesFlagged (n : nat).

(** What the methods read and change outside the instance: the dictionary
    [URLS_CHECKED], which is an attribute of the class (no method ever
    assigns [self.URLS_CHECKED], so every instance reaches the same
    object), the HTTP requests sent so far with their outcome (the most
    recent first), and the printed lines. *)
Record process := {
  URLS_CHECKED : dict;
  requests : list (str * bool);
  stdout : list message
}.

Definition set_checked (url : str) (qty : Z) (st : process) : process :=
  {| URLS_CHECKED := dict_set url qty (URLS_CHECKED st);
     requests := requests st; stdout := stdout st |}.

Definition log_request (url : str) (ok : bool) (st : process) : process :=
  {| URLS_CHECKED := URLS_CHECKED st;
     requests := (url, ok) :: requests st; stdout := stdout st |}.

Definition print (m : message) (st : process) : process :=
  {| URLS_CHECKED := URLS_CHECKED st;
     requests := requests st; stdout := stdout st ++ [m] |}.

(** How a call ends: normally, or by running out of the recursion budget of
    the model, or on a term that [re.compile] does not take in the modelled
    fragment (which includes the patterns it raises [re.error] on). *)
Inductive res (A : Type) :=
| Ok (a : A)
| OutOfFuel
| BadPattern.
Arguments Ok {A} a.
Arguments OutOfFuel {A}.
Arguments BadPattern {A}.

Definition bind {A B} (x : res A) (f : A -> res B) : res B :=
  match x with
  | Ok a => f a
  | OutOfFuel => OutOfFuel
  | BadPattern => BadPattern
  end.

Notation "x <- c1 ;; c2" := (bind c1 (fun x => c2))
  (at level 61, c1 at next level, right associativity).

Definition of_option {A} (o : option A) : res A :=
  match o with
  | Some a => Ok a
  | None => BadPattern
  end.

(** [for x in l: st = f x st], stopping at the first abnormal end *)
Fixpoint for_each {A S} (f : A -> S -> res S) (l : list A) (st : S) : res S :=
  match l with
  | [] => Ok st
  | x :: l' => st' <- f x st ;; for_each f l' st'
  end.

Definition write (self : NightCrawler) (m : message) (level : Z) (st : process) : process :=
  if (level <=? verbose_level self)%Z then print m st else st.

Definition is_useful_link (self : NightCrawler) (url : str) : bool :=
  if negb (contains (base_domain self) url) && negb (startswith (lit "/") url) then false
  else if existsb (fun filetype => endswith filetype url) FILETYPES_TO_IGNORE then false
  else true.

(** The pattern texts of [check_page]. *)
Definition link_pattern (unwanted_term : str) : str :=
  lit "(" ++ unwanted_term ++ lit ".*?)(?:'|" ++ [dquote] ++ lit "|#)".

Definition href_dq_pattern : str :=
  lit "href=" ++ [dquote] ++ lit "(.*?)(?:" ++ [dquote] ++ lit "|#)".

Definition href_sq_pattern : str := lit "href='(.*?)(?:'|#)".

(** [max(count - max_qty, 0)] *)
Definition count_beyond (count max_qty : Z) : Z := Z.max (count - max_qty) 0.

(** One round of the loop over [unwanted_terms.items()]: the state carries
    [total_count] along with the process. *)
Definition check_term (self : NightCrawler) (url content : str) (item : str * Z)
    (acc : Z * process) : res (Z * process) :=
  let '(unwanted_term, max_qty) := item in
  let '(total_count, st) := acc in
  if use_link_lookup self then
    occurrences <- of_option (re_findall (link_pattern unwanted_term) content) ;;
    let count := Z.of_nat (length occurrences) in
    let count_beyond_expected := count_beyond count max_qty in
    let total_count := (total_count + count_beyond_expected)%Z in
    if (count_beyond_expected =? 0)%Z then Ok (total_count, st)
    else
      let st := write self (MsgFoundLinks url count unwanted_term) 1 st in
      Ok (total_count,
          fold_left (fun st occurrence => write self (MsgLink url occurrence) 1 st)
                    occurrences st)
  else
    found <- of_option (re_finditer unwanted_term content) ;;
    let occurrences := map Re.m_start found in
    let count := Z.of_nat (length occurrences) in
    let count_beyond_expected := count_beyond count max_qty in
    let total_count := (total_count + count_beyond_expected)%Z in
    if (count_beyond_expected =? 0)%Z then Ok (total_count, st)
    else
      let st := write self (MsgFoundHtml url count unwanted_term) 1 st in
      Ok (total_count,
          fold_left (fun st start_idx =>
                       let substr :=
                         slice content start_idx
                               (start_idx + length unwanted_term + STR_CONTEXT_SIZE) in
                       write self (MsgHtml url substr) 1 st)
                    occurrences st).

Definition check_terms (self : NightCrawler) (url content : str) (st : process)
  : res (Z * process) :=
  for_each (check_term self url content) (unwanted_terms self) (0%Z, st).

Section Crawl.

(** [requests.get(url).content.decode('utf-8')], given the requests sent
    before: the decoded body, or [None] for any exception. *)
Variable http_get : list (str * bool) -> str -> option str.

(** [list(set(links))]: the elements in whatever order the set yields. *)
Variable list_of_set : list str -> list str.

(** Lines 109-112: the child links of a page. *)
Definition child_links (self : NightCrawler) (content : str) : res (list str) :=
  dq <- of_option (re_findall href_dq_pattern content) ;;
  sq <- of_option (re_findall href_sq_pattern content) ;;
  let links := dq ++ sq in
  let links := map strip links in
  let links := list_of_set links in
  Ok (filter (is_useful_link self) links).

Definition absolute (self : NightCrawler) (url : str) : str :=
  if startswith (lit "/") url then base_domain self ++ url else url.

Fixpoint check_page (fuel : nat) (self : NightCrawler) (url : str) (st : process)
  : res process :=
  match fuel with
  | O => OutOfFuel
  | S fuel' =>
    let url := absolute self url in
    if dict_mem url (URLS_CHECKED st) then
      Ok (write self (MsgSkip url) 3 (write self MsgRule 3 st))
    else
      let st := write self (MsgInit url) 2 (write self MsgRule 2 st) in
      match http_get (requests st) url with
      | None => Ok (write self (MsgError url) 1 (log_request url false st))
      | Some content =>
        let st := log_request url true st in
        scored <- check_terms self url content st ;;
        let '(total_count, st) := scored in
        let st := set_checked url total_count st in
        links <- child_links self content ;;
        for_each (check_page fuel' self) links st
      end
  end.

Definition crawl (fuel : nat) (self : NightCrawler) (st : process) : res process :=
  check_page fuel self (base_domain self) st.

End Crawl.

(** The two dictionary comprehensions of [print_summary]. *)
Definition pages_clear (d : dict) : dict := filter (fun e => (snd e =? 0)%Z) d.

Definition pages_with_terms (d : dict) : dict := filter (fun e => (snd e >? 0)%Z) d.

Definition print_summary (self : NightCrawler) (st : process) : process :=
  let total_pages := length (URLS_CHECKED st) in
  let clear := pages_clear (URLS_CHECKED st) in
  let len_pages_clear := length clear in
  let with_terms := pages_with_terms (URLS_CHECKED st) in
  let len_pages_with_terms := length with_terms in
  let st := write self MsgPagesClear 1 st in
  let st := fold_left (fun st url => write self (MsgClearUrl url) 1 st) (keys clear) st in
  let st := write self MsgPagesWithTerms 1 st in
  let st := fold_left (fun st e => write self (MsgUrlQty (fst e) (snd e)) 1 st) with_terms st in
  let st := write self MsgTotals 1 st in
  let st := write self (MsgPagesChecked total_pages) 1 st in
  let st := write self (MsgPagesCleared len_pages_clear) 1 st in
  write self (MsgPagesFlagged len_pages_with_terms) 1 st.

(** ** The command line *)

(** [s.split(sep)] for a separator of one character *)
Fixpoint split (sep : ascii) (s : str) : list str :=
  match s with
  | [] => [[]]
  | c :: s' =>
    if ascii_eqb c sep then [] :: split sep s'
    else
      match split sep s' with
      | part :: parts => (c :: part) :: parts
      | [] => [[c]]
      end
  end.

Definition colon : ascii := ascii_of_nat 58.

(** What [argparse] hands over: [--base-domain], [--terms] (one or more
    texts), [--use-link-lookup] and [--verbosity-level]. *)
Record arguments := {
  arg_base_domain : str;
  arg_unwanted_terms : list str;
  arg_use_link_lookup : bool;
  arg_verbose_level : Z
}.

Section Main.

Variable http_get : list (str * bool) -> str -> option str.
Variable list_of_set : list str -> list str.

(** The builtin [int(qty)] on a text: the number, or [None] when it
    raises [ValueError]. *)
Variable int : str -> option Z.

(** One round of the loop over [args.unwanted_terms]: [None] when [int]
    raises, which nothing catches. *)
Definition parse_term (term_data : str) (unwanted_terms : dict) : option dict :=
  let '(term, qty) :=
    match split colon term_data with
    | [term; qty] => (term, qty)
    | _ => (term_data, lit "0")
    end in
  match int qty with
  | Some qty => Some (dict_set term qty unwanted_terms)
  | None => None
  end.

Fixpoint parse_terms (specs : list str) (unwanted_terms : dict) : option dict :=
  match specs with
  | [] => Some unwanted_terms
  | term_data :: rest =>
    match parse_term term_data unwanted_terms with
    | Some unwanted_terms => parse_terms rest unwanted_terms
    | None => None
    end
  end.

(** The script body, in a process that has just defined the class (so
    with an empty [URLS_CHECKED]): [None] when building the terms raises
    [ValueError]. *)
Definition main (fuel : nat) (args : arguments) : option (res process) :=
  match parse_terms (arg_unwanted_terms args) [] with
  | None => None
  | Some unwanted_terms =>
    let night_crawler :=
      __init__ (arg_base_domain args) unwanted_terms (arg_use_link_lookup args)
               (arg_verbose_level args) in
    Some (st <- crawl http_get list_of_set fuel night_crawler
                  {| URLS_CHECKED := []; requests := []; stdout := [] |} ;;
          Ok (print_summary night_crawler st))
  end.

End Main.

(** * Vocabulary of the statements *)

(** ** Relations between texts *)

Definition is_prefix (p s : str) : Prop := exists t, s = p ++ t.
Definition is_suffix (p s : str) : Prop := exists t, s = t ++ p.
Definition is_substring (n s : str) : Prop := exists a b, s = a ++ n ++ b.

(** ** Scores *)

(** The number of occurrences the source takes for a term: the length of
    [re.findall] on the link pattern, or of the [re.finditer] positions. *)
Definition term_count (self : NightCrawler) (content unwanted_term : str) : option Z :=
  if use_link_lookup self then
    option_map (fun l => Z.of_nat (length l)) (re_findall (link_pattern unwanted_term) content)
  else
    option_map (fun l => Z.of_nat (length l)) (re_finditer unwanted_term content).

(** The sum of the excesses of the configured terms. *)
Fixpoint total_excess (self : NightCrawler) (content : str) (terms : list (str * Z))
  : option Z :=
  match terms with
  | [] => Some 0%Z
  | (term, max_qty) :: rest =>
    match term_count self content term, total_excess self content rest with
    | Some count, Some total => Some (count_beyond count max_qty + total)%Z
    | _, _ => None
    end
  end.

Definition res_map {A B} (f : A -> B) (x : res A) : res B := a <- x ;; Ok (f a).

(** ** The process state over a run *)

Definition empty_process : process := {| URLS_CHECKED := []; requests := []; stdout := [] |}.

(** No request is sent for a URL that an earlier request fetched. *)
Fixpoint fetched_at_most_once (log : list (str * bool)) : Prop :=
  match log with
  | [] => True
  | (u, _) :: earlier => ~ In (u, true) earlier /\ fetched_at_most_once earlier
  end.

(** What holds of the process state between any two calls. *)
Record crawl_inv (st : process) : Prop := {
  inv_keys : NoDup (keys (URLS_CHECKED st));
  inv_counts : Forall (fun e => (0 <= snd e)%Z) (URLS_CHECKED st);
  inv_fetched : forall u, In (u, true) (requests st) -> In u (keys (URLS_CHECKED st));
  inv_once : fetched_at_most_once (requests st)
}.

(** A call only adds keys to the dictionary and requests to the log. *)
Definition grows (st st' : process) : Prop :=
  (forall u, In u (keys (URLS_CHECKED st)) -> In u (keys (URLS_CHECKED st')))
  /\ exists sent, requests st' = sent ++ requests st.

(** The process with its visited set emptied. *)
Definition forget_visited (st : process) : process :=
  {| URLS_CHECKED := []; requests := requests st; stdout := stdout st |}.

(** The reading of the visited set as private to a crawler instance: a
    crawl by a second instance sends the requests it would send with an
    empty visited set. *)
Definition visited_set_per_instance : Prop :=
  forall http_get list_of_set fuel first second st1 st2,
    crawl http_get list_of_set fuel first empty_process = Ok st1 ->
    crawl http_get list_of_set fuel second st1 = Ok st2 ->
    exists st2', crawl http_get list_of_set fuel second (forget_visited st1) = Ok st2'
                 /\ requests st2' = requests st2.

(** ** Patterns of literal text *)

(** A term made of characters that stand for themselves in a pattern. *)
Definition all_literal (t : str) : bool := forallb Re.is_literal t.

Definition chr (c : ascii) : Re.regex := Re.One (Re.CChr c).

(** The pattern of a text of literal characters. *)
Definition literal_re (t : str) : Re.regex := Re.seq_of (map chr t).

Definition alt_chars (ts : list ascii) : Re.regex :=
  match map (fun c => Re.seq_of [chr c]) ts with
  | [] => Re.Eps
  | r :: l => Re.alt_of r l
  end.

(** The literal text [p], then a group holding the literal text [t] and a
    lazy run of [.], then one of the characters [ts]. *)
Definition delimited_re (p t : str) (ts : list ascii) : Re.regex :=
  Re.seq_of (map chr p ++ [Re.Group (Re.seq_of (map chr t ++ [Re.LazyStar Re.CDot])); alt_chars ts]).

(** ** Reading a text without patterns *)

(** The places where [t] occurs in [s], read from left to right, each
    search starting where the previous occurrence ended (one character
    further after an empty one): the occurrences [s.count(t)] counts.
    [pos] is the offset of [s], [skip] the characters still to pass. *)
Fixpoint find_all (t : str) (pos skip : nat) (s : str) : list nat :=
  match skip with
  | S k =>
    match s with
    | [] => []
    | _ :: s' => find_all t (S pos) k s'
    end
  | O =>
    if startswith t s then
      pos :: match s with
             | [] => []
             | _ :: s' => find_all t (S pos) (pred (length t)) s'
             end
    else
      match s with
      | [] => []
      | _ :: s' => find_all t (S pos) 0 s'
      end
  end.

(** Every place where [t] occurs in [s], overlapping or not. *)
Fixpoint find_overlapping (t : str) (pos : nat) (s : str) : list nat :=
  (if startswith t s then [pos] else []) ++
  match s with
  | [] => []
  | _ :: s' => find_overlapping t (S pos) s'
  end.

Definition is_stop (ts : list ascii) (c : ascii) : bool := existsb (fun d => ascii_eqb d c) ts.

(** How many characters of [s] come before the first of the characters
    [ts], when all of them satisfy [body]. *)
Fixpoint first_stop (body : ascii -> bool) (ts : list ascii) (s : str) : option nat :=
  match s with
  | [] => None
  | c :: s' =>
    if is_stop ts c then Some 0
    else if body c then option_map S (first_stop body ts s')
    else None
  end.

(** The runs of [s], read from left to right: at an occurrence of [p ++ t]
    that is followed, after characters that all satisfy [body], by one of
    the characters [ts], the run is the text from [t] up to that character,
    and the reading goes on after it. *)
Fixpoint delimited (body : ascii -> bool) (p t : str) (ts : list ascii) (skip : nat) (s : str)
  : list str :=
  match skip with
  | S n =>
    match s with
    | [] => []
    | _ :: s' => delimited body p t ts n s'
    end
  | O =>
    match (if startswith (p ++ t) s
           then first_stop body ts (skipn (length p + length t) s) else None) with
    | Some k =>
      firstn (length t + k) (skipn (length p) s) ::
      match s with
      | [] => []
      | _ :: s' => delimited body p t ts (length p + length t + k) s'
      end
    | None =>
      match s with
      | [] => []
      | _ :: s' => delimited body p t ts 0 s'
      end
    end
  end.

Definition not_newline (c : ascii) : bool := negb (ascii_eqb c newline).
Definition any_char (c : ascii) : bool := true.

Definition link_stops : list ascii := [squote; dquote; hash].

Definition href_dq : str := lit "href=" ++ [dquote].
Definition href_sq : str := lit "href='".

(** The [href] values of a page: the text after [href=] and a double
    quote up to the next double quote or [#], then the same for single
    quotes. [body] tells which characters a value may contain. *)
Definition href_values (body : ascii -> bool) (content : str) : list str :=
  delimited body href_dq [] [dquote; hash] 0 content
  ++ delimited body href_sq [] [squote; hash] 0 content.

(** ** A small site to run the crawler on *)

(** One possible [list(set(links))]: the elements without repetition. *)
Definition dedup : list str -> list str := nodup (list_eq_dec ascii_dec).

Definition demo_base : str := lit "http://my.base.domain".

Definition scenario_a_content : str :=
  lit "<a href=" ++ [dquote] ++ lit "/about" ++ [dquote] ++ lit ">About</a><a href="
  ++ [dquote] ++ lit "http://evil.com/x.pdf" ++ [dquote] ++ lit ">x</a>".

Definition demo_seed_page : str := scenario_a_content ++ lit "<a href='/broken'>b</a>".

Definition demo_about_page : str :=
  lit "<a href='http://my.base.domain'>home</a><a href='/broken'>b</a> promotion promotion promotion".

(** The seed links to [/about] and to [/broken]; [/about] links back to the
    seed and to [/broken]; every other URL fails to load. *)
Definition demo_web (_ : list (str * bool)) (url : str) : option str :=
  if str_eqb url demo_base then Some demo_seed_page
  else if str_eqb url (demo_base ++ lit "/about") then Some demo_about_page
  else None.

Definition demo : NightCrawler := __init__ demo_base [(lit "promotion", 1%Z)] false 1.

(** A second instance for the same site, looking for another term. *)
Definition demo_second : NightCrawler := __init__ demo_base [(lit "bonus", 0%Z)] false 1.

Definition demo_links : NightCrawler := __init__ demo_base [(lit "promotion", 0%Z)] true 1.

Definition scenario_c_content : str :=
  lit "href=" ++ [dquote] ++ lit "http://x.com/promotion/abc" ++ [dquote]
  ++ lit " href=" ++ [dquote] ++ lit "http://x.com/promotion/def" ++ [dquote].

(** ** The command line and whole runs *)

(** A stand-in for the builtin [int] on the plain decimal texts, with an
    optional minus sign; anything else raises. *)
Fixpoint demo_digits (s : str) (acc : Z) : option Z :=
  match s with
  | [] => Some acc
  | c :: s' =>
    let n := nat_of_ascii c in
    if (48 <=? n) && (n <=? 57) then demo_digits s' (10 * acc + Z.of_nat (n - 48))%Z
    else None
  end.

Definition demo_int (s : str) : option Z :=
  match s with
  | [] => None
  | c :: s' =>
    if ascii_eqb c (ascii_of_nat 45) then
      match s' with
      | [] => None
      | _ :: _ => option_map Z.opp (demo_digits s' 0)
      end
    else demo_digits s 0
  end.

Definition demo_arguments : arguments :=
  {| arg_base_domain := demo_base;
     arg_unwanted_terms := [lit "bonus"; lit "promotion:1"];
     arg_use_link_lookup := false;
     arg_verbose_level := 1 |}.

(** Two crawlers that differ at most in their verbosity. *)
Definition same_config (a b : NightCrawler) : Prop :=
  base_domain a = base_domain b
  /\ unwanted_terms a = unwanted_terms b
  /\ use_link_lookup a = use_link_lookup b.

(** Two process states that differ at most in what was printed. *)
Definition same_data (a b : process) : Prop :=
  URLS_CHECKED a = URLS_CHECKED b /\ requests a = requests b.

Definition same_outcome (x y : res process) : Prop :=
  match x, y with
  | Ok a, Ok b => same_data a b
  | OutOfFuel, OutOfFuel => True
  | BadPattern, BadPattern => True
  | _, _ => False
  end.


(** What a call did: the entries [new] it added to the dictionary and the
    requests [sent] it made (most recent first); the added keys are the
    URLs of the requests that succeeded, in the order of the requests,
    and every requested URL satisfies [P]. *)
Definition trace (P : str -> Prop) (st st' : process) : Prop :=
  exists new sent,
    URLS_CHECKED st' = URLS_CHECKED st ++ new
    /\ requests st' = sent ++ requests st
    /\ keys new = rev (map fst (filter snd sent))
    /\ Forall (fun r => P (fst r)) sent.

(** The absolute form of a link that [is_useful_link] accepts. *)
Definition linked (self : NightCrawler) (v : str) : Prop :=
  exists l, is_useful_link self l = true /\ v = absolute self l.

(** The lines of the summary for the dictionary [d]. *)
Definition summary_lines (d : dict) : list message :=
  MsgPagesClear :: map MsgClearUrl (keys (pages_clear d))
  ++ MsgPagesWithTerms :: map (fun e => MsgUrlQty (fst e) (snd e)) (pages_with_terms d)
  ++ [MsgTotals; MsgPagesChecked (length d); MsgPagesCleared (length (pages_clear d));
      MsgPagesFlagged (length (pages_with_terms d))].

(** More instances on the small site. *)
Definition demo_negative : NightCrawler := __init__ demo_base [(lit "promotion", (-1)%Z)] false 1.
Definition demo_quiet : NightCrawler := __init__ demo_base [(lit "promotion", 1%Z)] false 0.
Definition demo_loud : NightCrawler := __init__ demo_base [(lit "promotion", 1%Z)] false 3.


Definition bad_arguments : arguments :=
  {| arg_base_domain := demo_base;
     arg_unwanted_terms := [lit "bonus"; lit "http://promotion.example"];
     arg_use_link_lookup := true;
     arg_verbose_level := 1 |}.

Definition down_arguments : arguments :=
  {| arg_base_domain := lit "http://down.example";
     arg_unwanted_terms := [lit "bonus"];
     arg_use_link_lookup := false;
     arg_verbose_level := 1 |}.

(** * Properties *)

(** ** Text *)

Lemma ascii_eqb_eq (a b : ascii) : ascii_eqb a b = true <-> a = b.
Proof. apply Ascii.eqb_eq. Qed.

Lemma ascii_eqb_refl (a : ascii) : ascii_eqb a a = true.
Proof. apply Ascii.eqb_refl. Qed.

Lemma str_eqb_eq (a b : str) : str_eqb a b = true <-> a = b.
Proof.
  revert b; induction a as [|x a IH]; intros [|y b]; simpl; split; intros H;
    try discriminate; try reflexivity.
  - apply andb_true_iff in H as [H1 H2].
    apply ascii_eqb_eq in H1. apply IH in H2. now subst.
  - injection H as -> ->. rewrite ascii_eqb_refl. now apply IH.
Qed.

Lemma str_eqb_refl (a : str) : str_eqb a a = true.
Proof. now apply str_eqb_eq. Qed.

Lemma startswith_prefix (p s : str) : startswith p s = true <-> is_prefix p s.
Proof.
  revert s; induction p as [|x p IH]; intros s; simpl.
  - split; [intros _; now exists s | reflexivity].
  - destruct s as [|y s].
    + split; [discriminate | intros [t Ht]; discriminate].
    + rewrite andb_true_iff, ascii_eqb_eq, IH. split.
      * intros [-> [t ->]]. now exists t.
      * intros [t Ht]. injection Ht as -> ->. split; [reflexivity | now exists t].
Qed.

Lemma startswith_app (p t : str) : startswith p (p ++ t) = true.
Proof. apply startswith_prefix. now exists t. Qed.

Lemma endswith_suffix (p s : str) : endswith p s = true <-> is_suffix p s.
Proof.
  unfold endswith. rewrite startswith_prefix. split.
  - intros [t Ht]. exists (rev t).
    rewrite <- (rev_involutive s), Ht, rev_app_distr, rev_involutive. reflexivity.
  - intros [t ->]. exists (rev t). apply rev_app_distr.
Qed.

Lemma contains_substring (n s : str) : contains n s = true <-> is_substring n s.
Proof.
  induction s as [|y s IH].
  - simpl. rewrite orb_false_r, startswith_prefix. split.
    + intros [t Ht]. exists [], t. exact Ht.
    + intros [a [b Hab]]. destruct a; [now exists b|discriminate].
  - cbn [contains]. rewrite orb_true_iff, startswith_prefix, IH. split.
    + intros [[t Ht] | [a [b Hab]]].
      * exists [], t. exact Ht.
      * exists (y :: a), b. now rewrite Hab.
    + intros [[|x a] [b Hab]].
      * left. now exists b.
      * right. injection Hab as -> ->. now exists a, b.
Qed.

(** ** Dictionaries *)

Lemma dict_mem_In (k : str) (d : dict) : dict_mem k d = true <-> In k (keys d).
Proof.
  unfold dict_mem. rewrite existsb_exists. split.
  - intros [x [Hx He]]. apply str_eqb_eq in He. now subst.
  - intros H. exists k. split; [exact H | apply str_eqb_refl].
Qed.

Lemma dict_mem_false (k : str) (d : dict) : dict_mem k d = false <-> ~ In k (keys d).
Proof.
  rewrite <- dict_mem_In. destruct (dict_mem k d); split; intros H.
  - discriminate.
  - exfalso. now apply H.
  - intros E. discriminate.
  - reflexivity.
Qed.

Lemma dict_set_new (k : str) (v : Z) (d : dict) :
  ~ In k (keys d) -> dict_set k v d = d ++ [(k, v)].
Proof.
  induction d as [|[k' v'] d IH]; simpl; intros H; [reflexivity|].
  destruct (str_eqb k k') eqn:E.
  - apply str_eqb_eq in E. subst. exfalso. apply H. now left.
  - rewrite IH; [reflexivity | intros Hin; apply H; now right].
Qed.

Lemma keys_dict_set_old (k : str) (v : Z) (d : dict) :
  In k (keys d) -> keys (dict_set k v d) = keys d.
Proof.
  induction d as [|[k' v'] d IH]; simpl; intros H; [contradiction|].
  destruct (str_eqb k k') eqn:E; simpl; [reflexivity|].
  f_equal. apply IH. destruct H as [H|H]; [|exact H].
  subst. now rewrite str_eqb_refl in E.
Qed.

Lemma In_keys_dict_set (k u : str) (v : Z) (d : dict) :
  In u (keys (dict_set k v d)) <-> u = k \/ In u (keys d).
Proof.
  destruct (dict_mem k d) eqn:E.
  - apply dict_mem_In in E. rewrite keys_dict_set_old by exact E.
    split; [now right | intros [->|H]; assumption].
  - apply dict_mem_false in E. rewrite dict_set_new by exact E.
    unfold keys. rewrite map_app, in_app_iff. simpl. split.
    + intros [H|[H|[]]]; [now right | now left].
    + intros [->|H]; [right; now left | now left].
Qed.

Lemma NoDup_keys_dict_set (k : str) (v : Z) (d : dict) :
  NoDup (keys d) -> NoDup (keys (dict_set k v d)).
Proof.
  intros H. destruct (dict_mem k d) eqn:E.
  - apply dict_mem_In in E. now rewrite keys_dict_set_old.
  - apply dict_mem_false in E. rewrite dict_set_new by exact E.
    unfold keys. rewrite map_app. simpl.
    apply NoDup_app.
    + exact H.
    + constructor; [intros [] | constructor].
    + intros x Hx [<-|[]]. now apply E.
Qed.

(** ** Link Filter *)

(** C4. [is_useful_link] answers [False] exactly when the URL neither
    contains the base domain nor starts with a slash, or when it ends with
    one of [.pdf .svg .png .css .ico .js]; it answers [True] for every other
    URL. It is a function of the instance and the URL alone: it neither
    reads nor changes the process state. *)
Theorem is_useful_link_exact (self : NightCrawler) (url : str) :
  (is_useful_link self url = false <->
     (~ is_substring (base_domain self) url /\ ~ is_prefix (lit "/") url)
     \/ (exists ext, In ext [lit ".pdf"; lit ".svg"; lit ".png"; lit ".css"; lit ".ico"; lit ".js"]
                     /\ is_suffix ext url))
  /\ (is_useful_link self url = true <->
        ~ ((~ is_substring (base_domain self) url /\ ~ is_prefix (lit "/") url)
           \/ (exists ext, In ext FILETYPES_TO_IGNORE /\ is_suffix ext url))).
Proof.
  assert (Hdom : negb (contains (base_domain self) url) && negb (startswith (lit "/") url) = true
                 <-> ~ is_substring (base_domain self) url /\ ~ is_prefix (lit "/") url).
  { rewrite andb_true_iff, !negb_true_iff, <- contains_substring, <- startswith_prefix.
    destruct (contains _ url), (startswith _ url); intuition congruence. }
  assert (Hext : existsb (fun filetype => endswith filetype url) FILETYPES_TO_IGNORE = true
                 <-> exists ext, In ext FILETYPES_TO_IGNORE /\ is_suffix ext url).
  { rewrite existsb_exists. split; intros [e [H1 H2]]; exists e; split; try exact H1;
      now apply endswith_suffix. }
  unfold is_useful_link.
  destruct (negb (contains (base_domain self) url) && negb (startswith (lit "/") url)) eqn:E1;
    [| destruct (existsb _ FILETYPES_TO_IGNORE) eqn:E2].
  - assert (A : ~ is_substring (base_domain self) url /\ ~ is_prefix (lit "/") url)
      by now apply Hdom.
    split; split; intros H; try discriminate; try reflexivity.
    + now left.
    + exfalso. apply H. now left.
  - assert (B : exists ext, In ext FILETYPES_TO_IGNORE /\ is_suffix ext url)
      by now apply Hext.
    split; split; intros H; try discriminate; try reflexivity.
    + now right.
    + exfalso. apply H. now right.
  - assert (N1 : ~ (~ is_substring (base_domain self) url /\ ~ is_prefix (lit "/") url))
      by (intros H; apply Hdom in H; discriminate).
    assert (N2 : ~ exists ext, In ext FILETYPES_TO_IGNORE /\ is_suffix ext url)
      by (intros H; apply Hext in H; discriminate).
    split; split; intros H; try discriminate; try reflexivity.
    + exfalso. destruct H as [H|H]; [now apply N1 | now apply N2].
    + intros [H'|H']; [now apply N1 | now apply N2].
Qed.

(** ** Term Matcher: thresholds *)

Lemma write_URLS_CHECKED self m level st :
  URLS_CHECKED (write self m level st) = URLS_CHECKED st.
Proof. unfold write. now destruct (level <=? verbose_level self)%Z. Qed.

Lemma write_requests self m level st : requests (write self m level st) = requests st.
Proof. unfold write. now destruct (level <=? verbose_level self)%Z. Qed.

Lemma fold_write_frame {A} self (f : A -> message) level (l : list A) st :
  let st' := fold_left (fun st x => write self (f x) level st) l st in
  URLS_CHECKED st' = URLS_CHECKED st /\ requests st' = requests st.
Proof.
  revert st; induction l as [|x l IH]; intros st; simpl; [now split|].
  destruct (IH (write self (f x) level st)) as [H1 H2].
  rewrite H1, H2, write_URLS_CHECKED, write_requests. now split.
Qed.

Lemma count_beyond_nonneg (count max_qty : Z) : (0 <= count_beyond count max_qty)%Z.
Proof. unfold count_beyond. lia. Qed.

(** One round adds the excess of its term to the running total and leaves
    the dictionary and the request log alone. *)
Lemma check_term_Ok self url content term max_qty total st total' st' :
  check_term self url content (term, max_qty) (total, st) = Ok (total', st') ->
  (exists count, term_count self content term = Some count
                 /\ total' = (total + count_beyond count max_qty)%Z)
  /\ URLS_CHECKED st' = URLS_CHECKED st /\ requests st' = requests st.
Proof.
  unfold check_term, term_count.
  destruct (use_link_lookup self).
  - destruct (re_findall (link_pattern term) content) as [occ|]; simpl; [|discriminate].
    destruct (count_beyond (Z.of_nat (length occ)) max_qty =? 0)%Z;
      intros H; injection H as <- <-.
    + split; [eexists; split; reflexivity | now split].
    + split; [eexists; split; reflexivity |].
      destruct (fold_write_frame self (fun occurrence => MsgLink url occurrence) 1 occ
                  (write self (MsgFoundLinks url (Z.of_nat (length occ)) term) 1 st))
        as [H1 H2].
      rewrite H1, H2, write_URLS_CHECKED, write_requests. now split.
  - destruct (re_finditer term content) as [found|]; simpl; [|discriminate].
    rewrite length_map.
    destruct (count_beyond (Z.of_nat (length found)) max_qty =? 0)%Z;
      intros H; injection H as <- <-.
    + split; [eexists; split; reflexivity | now split].
    + split; [eexists; split; reflexivity |].
      destruct (fold_write_frame self
                  (fun start_idx =>
                     MsgHtml url (slice content start_idx
                                        (start_idx + length term + STR_CONTEXT_SIZE)))
                  1 (map Re.m_start found)
                  (write self (MsgFoundHtml url (Z.of_nat (length found)) term) 1 st))
        as [H1 H2].
      rewrite H1, H2, write_URLS_CHECKED, write_requests. now split.
Qed.

Lemma check_term_None self url content term max_qty total st :
  term_count self content term = None ->
  check_term self url content (term, max_qty) (total, st) = BadPattern.
Proof.
  unfold check_term, term_count.
  destruct (use_link_lookup self).
  - now destruct (re_findall (link_pattern term) content).
  - now destruct (re_finditer term content).
Qed.

Lemma check_term_Some self url content term max_qty total st count :
  term_count self content term = Some count ->
  exists st', check_term self url content (term, max_qty) (total, st)
              = Ok ((total + count_beyond count max_qty)%Z, st').
Proof.
  unfold check_term, term_count.
  destruct (use_link_lookup self).
  - destruct (re_findall (link_pattern term) content) as [occ|]; simpl; [|discriminate].
    intros H; injection H as <-.
    destruct (count_beyond (Z.of_nat (length occ)) max_qty =? 0)%Z; eexists; reflexivity.
  - destruct (re_finditer term content) as [found|]; simpl; [|discriminate].
    rewrite length_map. intros H; injection H as <-.
    destruct (count_beyond (Z.of_nat (length found)) max_qty =? 0)%Z; eexists; reflexivity.
Qed.

Lemma check_terms_loop self url content terms total st :
  res_map fst (for_each (check_term self url content) terms (total, st))
  = of_option (option_map (Z.add total) (total_excess self content terms)).
Proof.
  revert total st; induction terms as [|[term max_qty] terms IH]; intros total st.
  - simpl. now rewrite Z.add_0_r.
  - cbn [for_each total_excess].
    destruct (term_count self content term) as [count|] eqn:E.
    + destruct (check_term_Some self url content term max_qty total st count E) as [st' ->].
      cbn [bind]. rewrite IH.
      destruct (total_excess self content terms) as [t|]; simpl; [|reflexivity].
      f_equal. lia.
    + now rewrite check_term_None.
Qed.

Lemma check_terms_frame self url content terms total st total' st' :
  for_each (check_term self url content) terms (total, st) = Ok (total', st') ->
  (total <= total')%Z /\ URLS_CHECKED st' = URLS_CHECKED st /\ requests st' = requests st.
Proof.
  revert total st; induction terms as [|[term max_qty] terms IH]; intros total st;
    cbn [for_each].
  - intros H; injection H as <- <-. repeat split; lia.
  - destruct (check_term self url content (term, max_qty) (total, st)) as [[t1 st1]| |] eqn:E;
      cbn [bind]; try discriminate.
    intros H. apply IH in H as (H1 & H2 & H3).
    apply check_term_Ok in E as ((count & _ & ->) & E2 & E3).
    pose proof (count_beyond_nonneg count max_qty).
    repeat split; [lia | congruence | congruence].
Qed.

(** C5. For each term the excess is [max(count - threshold, 0)]; for a
    fixed count it does not increase when the threshold grows, and it is
    zero once the threshold reaches the count. The score [check_page]
    stores for a page is the sum of the excesses of the configured terms
    (and the scoring ends abnormally exactly when a term is outside the
    pattern fragment). *)
Theorem excess_threshold (self : NightCrawler) (url content : str) (st : process) :
  (forall count max_qty, count_beyond count max_qty = Z.max (count - max_qty) 0)
  /\ (forall count t1 t2, (t1 <= t2)%Z -> (count_beyond count t2 <= count_beyond count t1)%Z)
  /\ (forall count max_qty, (count <= max_qty)%Z -> count_beyond count max_qty = 0%Z)
  /\ res_map fst (check_terms self url content st)
     = of_option (total_excess self content (unwanted_terms self)).
Proof.
  unfold count_beyond. repeat split; intros; try lia.
  unfold check_terms. rewrite check_terms_loop.
  now destruct (total_excess self content (unwanted_terms self)).
Qed.

(** ** Traversal Engine *)

Lemma crawl_inv_empty : crawl_inv empty_process.
Proof. split; simpl; try constructor; intros u []. Qed.

Lemma crawl_inv_frame (st st' : process) :
  URLS_CHECKED st' = URLS_CHECKED st -> requests st' = requests st ->
  crawl_inv st -> crawl_inv st'.
Proof. intros H1 H2 [A B C D]. split; rewrite ?H1, ?H2; assumption. Qed.

Lemma Forall_dict_set (P : str * Z -> Prop) (k : str) (v : Z) (d : dict) :
  (forall k', P (k', v)) -> Forall P d -> Forall P (dict_set k v d).
Proof.
  intros Hv. induction 1 as [|[k' v'] d Hx Hd IH]; simpl.
  - constructor; [apply Hv | constructor].
  - destruct (str_eqb k k'); constructor; auto.
Qed.

Section CrawlFacts.

Variable http_get : list (str * bool) -> str -> option str.
Variable list_of_set : list str -> list str.
Variable self : NightCrawler.

Local Abbreviation visit fuel := (check_page http_get list_of_set fuel self).

(** The three ways a call that is given some fuel proceeds. *)
Lemma check_page_visited fuel url st :
  In (absolute self url) (keys (URLS_CHECKED st)) ->
  visit (S fuel) url st
  = Ok (write self (MsgSkip (absolute self url)) 3 (write self MsgRule 3 st)).
Proof.
  intros H. apply dict_mem_In in H. cbn [check_page]. now rewrite H.
Qed.

Lemma check_page_failed fuel url st :
  ~ In (absolute self url) (keys (URLS_CHECKED st)) ->
  http_get (requests st) (absolute self url) = None ->
  visit (S fuel) url st
  = Ok (write self (MsgError (absolute self url)) 1
          (log_request (absolute self url) false
             (write self (MsgInit (absolute self url)) 2 (write self MsgRule 2 st)))).
Proof.
  intros H G. apply dict_mem_false in H. cbn [check_page]. rewrite H.
  now rewrite !write_requests, G.
Qed.

Lemma check_page_fetched fuel url st content :
  ~ In (absolute self url) (keys (URLS_CHECKED st)) ->
  http_get (requests st) (absolute self url) = Some content ->
  visit (S fuel) url st
  = (scored <- check_terms self (absolute self url) content
                 (log_request (absolute self url) true
                    (write self (MsgInit (absolute self url)) 2 (write self MsgRule 2 st))) ;;
     links <- child_links list_of_set self content ;;
     for_each (visit fuel) links
       (set_checked (absolute self url) (fst scored) (snd scored))).
Proof.
  intros H G. apply dict_mem_false in H. cbn [check_page]. rewrite H.
  rewrite !write_requests, G.
  destruct (check_terms self (absolute self url) content _) as [[total st1]| |]; reflexivity.
Qed.

Lemma for_each_inv (f : str -> process -> res process) (P : process -> process -> Prop) :
  (forall st, P st st) ->
  (forall a b c, P a b -> P b c -> P a c) ->
  (forall x st st', crawl_inv st -> f x st = Ok st' -> crawl_inv st' /\ P st st') ->
  forall l st st', crawl_inv st -> for_each f l st = Ok st' -> crawl_inv st' /\ P st st'.
Proof.
  intros Hrefl Htrans Hf. induction l as [|x l IH]; intros st st' I; cbn [for_each].
  - intros H; injection H as <-. split; [exact I | apply Hrefl].
  - destruct (f x st) as [st1| |] eqn:E; cbn [bind]; try discriminate.
    intros H. destruct (Hf _ _ _ I E) as [I1 P1].
    destruct (IH _ _ I1 H) as [I2 P2]. split; [exact I2 | eapply Htrans; eassumption].
Qed.

Lemma grows_refl st : grows st st.
Proof. split; [auto | now exists []]. Qed.

Lemma grows_trans a b c : grows a b -> grows b c -> grows a c.
Proof.
  intros [H1 [l1 E1]] [H2 [l2 E2]]. split; [auto|].
  exists (l2 ++ l1). now rewrite E2, E1, app_assoc.
Qed.

Lemma check_page_inv fuel : forall url st st',
  crawl_inv st -> visit fuel url st = Ok st' -> crawl_inv st' /\ grows st st'.
Proof.
  induction fuel as [|fuel IH]; intros url st st' I; [discriminate|].
  set (u := absolute self url).
  destruct (dict_mem u (URLS_CHECKED st)) eqn:M.
  - apply dict_mem_In in M. rewrite check_page_visited by exact M.
    intros H; injection H as <-. split.
    + apply (crawl_inv_frame st); [| | exact I];
        now rewrite ?write_URLS_CHECKED, ?write_requests.
    + split; rewrite ?write_URLS_CHECKED, ?write_requests; [auto | now exists []].
  - apply dict_mem_false in M.
    destruct (http_get (requests st) u) as [content|] eqn:G.
    + rewrite (check_page_fetched fuel url st content M G). fold u.
      destruct (check_terms self u content _) as [[total st1]| |] eqn:T;
        cbn [bind]; try discriminate.
      destruct (child_links list_of_set self content) as [links| |];
        cbn [bind]; try discriminate.
      apply check_terms_frame in T as (T0 & T1 & T2).
      cbn [URLS_CHECKED requests log_request] in T1, T2.
      rewrite !write_URLS_CHECKED in T1. rewrite !write_requests in T2.
      cbn [fst snd].
      assert (I1 : crawl_inv (set_checked u total st1)).
      { destruct I as [A B C D]. split; cbn [set_checked URLS_CHECKED requests].
        - rewrite T1. now apply NoDup_keys_dict_set.
        - rewrite T1. apply Forall_dict_set; [intros; exact T0 | exact B].
        - rewrite T1, T2. intros v [E|Hv]; apply In_keys_dict_set.
          + injection E as <-. now left.
          + right. now apply C.
        - rewrite T2. split; [|exact D]. intros Hu. now apply M, C. }
      intros H.
      destruct (for_each_inv (visit fuel) grows grows_refl grows_trans
                  (fun x a b => IH x a b) links _ _ I1 H) as [I2 [G1 [sent G2]]].
      split; [exact I2|]. split.
      * intros v Hv. apply G1. cbn [set_checked URLS_CHECKED]. rewrite T1.
        apply In_keys_dict_set. now right.
      * exists (sent ++ [(u, true)]). rewrite G2. cbn [set_checked requests].
        rewrite T2, <- app_assoc. reflexivity.
    + rewrite (check_page_failed fuel url st M G). fold u.
      intros H; injection H as <-. split.
      * destruct I as [A B C D].
        split; rewrite ?write_URLS_CHECKED, ?write_requests;
          cbn [log_request URLS_CHECKED requests];
          rewrite ?write_URLS_CHECKED, ?write_requests; try assumption.
        -- intros v [E|Hv]; [discriminate | now apply C].
        -- split; [|exact D]. intros Hu. now apply M, C.
      * split; rewrite ?write_URLS_CHECKED, ?write_requests;
          cbn [log_request URLS_CHECKED requests];
          rewrite ?write_URLS_CHECKED, ?write_requests; [auto | now exists [(u, false)]].
Qed.

End CrawlFacts.

Section CrawlClaims.

Variable http_get : list (str * bool) -> str -> option str.
Variable list_of_set : list str -> list str.
Variable self : NightCrawler.

Local Abbreviation visit fuel := (check_page http_get list_of_set fuel self).

Lemma check_page_requests fuel : forall url st st',
  visit fuel url st = Ok st' -> exists sent, requests st' = sent ++ requests st.
Proof.
  induction fuel as [|fuel IH]; intros url st st'; [discriminate|].
  set (u := absolute self url).
  destruct (dict_mem u (URLS_CHECKED st)) eqn:M.
  - apply dict_mem_In in M. rewrite check_page_visited by exact M.
    intros H; injection H as <-. exists []. now rewrite !write_requests.
  - apply dict_mem_false in M.
    destruct (http_get (requests st) u) as [content|] eqn:G.
    + rewrite (check_page_fetched _ _ _ fuel url st content M G). fold u.
      destruct (check_terms self u content _) as [[total st1]| |] eqn:T;
        cbn [bind]; try discriminate.
      destruct (child_links list_of_set self content) as [links| |];
        cbn [bind]; try discriminate.
      apply check_terms_frame in T as (_ & _ & T2).
      cbn [requests log_request] in T2. rewrite !write_requests in T2.
      cbn [fst snd].
      assert (L : forall l a b, for_each (visit fuel) l a = Ok b ->
                                exists sent, requests b = sent ++ requests a).
      { induction l as [|x l IHl]; intros a b; cbn [for_each].
        - intros H; injection H as <-. now exists [].
        - destruct (visit fuel x a) as [a1| |] eqn:E; cbn [bind]; try discriminate.
          intros H. apply IH in E as [s1 E1]. apply IHl in H as [s2 E2].
          exists (s2 ++ s1). now rewrite E2, E1, app_assoc. }
      intros H. apply L in H as [sent E]. exists (sent ++ [(u, true)]).
      rewrite E. cbn [set_checked requests]. now rewrite T2, <- app_assoc.
    + rewrite (check_page_failed _ _ _ fuel url st M G). fold u.
      intros H; injection H as <-. exists [(u, false)].
      rewrite !write_requests. cbn [log_request requests]. now rewrite !write_requests.
Qed.

(** C1. Within a run each URL, made absolute first (a URL that starts with
    a slash gets the base domain in front before anything else is done with
    it), is a key of the visited set at most once. A call for a URL that is
    already a key returns at once: it sends no request and leaves the
    dictionary as it is. A call for a new URL whose page is fetched and
    scored stores the URL with its total excess and only then goes through
    the child links. So over any calls that return, no URL that was
    fetched is ever requested again. *)
Theorem check_page_visits_once (fuel : nat) (url : str) (st : process) :
  let u := absolute self url in
  (is_prefix (lit "/") url -> u = base_domain self ++ url)
  /\ (~ is_prefix (lit "/") url -> u = url)
  /\ (In u (keys (URLS_CHECKED st)) ->
        exists st', visit (S fuel) url st = Ok st'
                    /\ URLS_CHECKED st' = URLS_CHECKED st /\ requests st' = requests st)
  /\ (forall content total st1 links,
        ~ In u (keys (URLS_CHECKED st)) ->
        http_get (requests st) u = Some content ->
        check_terms self u content
          (log_request u true (write self (MsgInit u) 2 (write self MsgRule 2 st)))
          = Ok (total, st1) ->
        child_links list_of_set self content = Ok links ->
        URLS_CHECKED (set_checked u total st1) = URLS_CHECKED st ++ [(u, total)]
        /\ visit (S fuel) url st = for_each (visit fuel) links (set_checked u total st1))
  /\ (forall st',
        crawl_inv st -> visit fuel url st = Ok st' ->
        NoDup (keys (URLS_CHECKED st'))
        /\ fetched_at_most_once (requests st')
        /\ (forall v, In (v, true) (requests st') -> In v (keys (URLS_CHECKED st')))).
Proof.
  cbv zeta. split; [|split; [|split; [|split]]].
  - intros H. apply startswith_prefix in H. unfold absolute. now rewrite H.
  - intros H. unfold absolute. destruct (startswith (lit "/") url) eqn:E; [|reflexivity].
    exfalso. now apply H, startswith_prefix.
  - intros H. eexists. split; [now apply check_page_visited|].
    now rewrite !write_URLS_CHECKED, !write_requests.
  - intros content total st1 links M G T L. split.
    + apply check_terms_frame in T as (_ & T1 & _).
      cbn [URLS_CHECKED log_request] in T1. rewrite !write_URLS_CHECKED in T1.
      cbn [set_checked URLS_CHECKED]. rewrite T1. now apply dict_set_new.
    + rewrite (check_page_fetched _ _ _ fuel url st content M G), T. cbn [bind].
      now rewrite L.
  - intros st' I H. destruct (check_page_inv _ _ _ fuel url st st' I H) as [[A B C D] _].
    auto.
Qed.

(** C3. When the fetch (or the decoding) of a URL fails, [check_page]
    returns normally, with the dictionary exactly as it was, so the URL is
    not in it. The next call for that URL, from whatever page, is therefore
    not skipped but sends a new request. *)
Theorem failed_fetch_not_memoized (fuel : nat) (url : str) (st : process) :
  let u := absolute self url in
  ~ In u (keys (URLS_CHECKED st)) ->
  http_get (requests st) u = None ->
  exists st1,
    visit (S fuel) url st = Ok st1
    /\ URLS_CHECKED st1 = URLS_CHECKED st
    /\ ~ In u (keys (URLS_CHECKED st1))
    /\ requests st1 = (u, false) :: requests st
    /\ forall fuel2 url2 st2,
         absolute self url2 = u ->
         ~ In u (keys (URLS_CHECKED st2)) ->
         match http_get (requests st2) u with
         | None =>
           exists st3, visit (S fuel2) url2 st2 = Ok st3
                       /\ requests st3 = (u, false) :: requests st2
         | Some _ =>
           forall st3, visit (S fuel2) url2 st2 = Ok st3 ->
                       exists sent, requests st3 = sent ++ (u, true) :: requests st2
         end.
Proof.
  cbv zeta. intros M G. eexists. split; [now apply check_page_failed|].
  rewrite !write_URLS_CHECKED, !write_requests. cbn [log_request URLS_CHECKED requests].
  rewrite !write_URLS_CHECKED, !write_requests.
  split; [reflexivity|]. split; [exact M|]. split; [reflexivity|].
  intros fuel2 url2 st2 U K.
  assert (M2 : ~ In (absolute self url2) (keys (URLS_CHECKED st2))) by (now rewrite U).
  destruct (http_get (requests st2) (absolute self url)) as [content|] eqn:G2.
  - intros st3. rewrite <- U in G2.
    rewrite (check_page_fetched _ _ _ fuel2 url2 st2 content M2 G2). rewrite U.
    destruct (check_terms self (absolute self url) content _) as [[total st1]| |] eqn:T;
      cbn [bind]; try discriminate.
    destruct (child_links list_of_set self content) as [links| |];
      cbn [bind]; try discriminate.
    apply check_terms_frame in T as (_ & _ & T2).
    cbn [requests log_request] in T2. rewrite !write_requests in T2.
    cbn [fst snd].
    assert (L : forall l a b, for_each (visit fuel2) l a = Ok b ->
                              exists sent, requests b = sent ++ requests a).
    { induction l as [|x l IHl]; intros a b; cbn [for_each].
      - intros H; injection H as <-. now exists [].
      - destruct (visit fuel2 x a) as [a1| |] eqn:E; cbn [bind]; try discriminate.
        intros H. apply check_page_requests in E as [s1 E1]. apply IHl in H as [s2 E2].
        exists (s2 ++ s1). now rewrite E2, E1, app_assoc. }
    intros H. apply L in H as [sent E]. exists sent.
    rewrite E. cbn [set_checked requests]. now rewrite T2.
  - rewrite <- U in G2. eexists. split; [now apply check_page_failed|].
    rewrite !write_requests. cbn [log_request requests]. now rewrite !write_requests, U.
Qed.

End CrawlClaims.

(** ** Runs on the small site *)

Lemma check_page_visits_once_witness :
  (absolute demo (lit "/about") = demo_base ++ lit "/about")
  /\ (exists st', check_page demo_web dedup 1 demo demo_base
                    {| URLS_CHECKED := [(demo_base, 0%Z)]; requests := [(demo_base, true)];
                       stdout := [] |} = Ok st'
                  /\ URLS_CHECKED st' = [(demo_base, 0%Z)]
                  /\ requests st' = [(demo_base, true)])
  /\ (exists st', crawl demo_web dedup 3 demo empty_process = Ok st'
                  /\ NoDup (keys (URLS_CHECKED st'))
                  /\ fetched_at_most_once (requests st')).
Proof.
  split; [|split].
  - apply (check_page_visits_once demo_web dedup demo 0 (lit "/about") empty_process).
    exists (lit "about"). reflexivity.
  - apply (check_page_visits_once demo_web dedup demo 0 demo_base
             {| URLS_CHECKED := [(demo_base, 0%Z)]; requests := [(demo_base, true)];
                stdout := [] |}).
    left. reflexivity.
  - eexists. split; [vm_compute; reflexivity|].
    destruct (check_page_visits_once demo_web dedup demo 3 demo_base empty_process)
      as (_ & _ & _ & _ & H).
    destruct (H _ crawl_inv_empty ltac:(vm_compute; reflexivity)) as (A & B & _).
    split; assumption.
Defined.

Lemma failed_fetch_not_memoized_witness :
  exists st1,
    check_page demo_web dedup 1 demo (lit "/broken") empty_process = Ok st1
    /\ URLS_CHECKED st1 = []
    /\ requests st1 = [(demo_base ++ lit "/broken", false)]
    /\ exists st3,
         check_page demo_web dedup 1 demo (demo_base ++ lit "/broken") st1 = Ok st3
         /\ requests st3 = (demo_base ++ lit "/broken", false) :: requests st1.
Proof.
  destruct (failed_fetch_not_memoized demo_web dedup demo 0 (lit "/broken") empty_process)
    as (st1 & H1 & H2 & H3 & H4 & H5).
  - simpl. intros [].
  - reflexivity.
  - exists st1. split; [exact H1|]. split; [exact H2|]. split; [exact H4|].
    specialize (H5 0 (demo_base ++ lit "/broken") st1 eq_refl H3).
    replace (demo_web (requests st1) (absolute demo (lit "/broken"))) with (@None str) in H5
      by reflexivity.
    exact H5.
Defined.

Lemma excess_threshold_witness :
  (count_beyond 3 2 <= count_beyond 3 1)%Z /\ count_beyond 3 5 = 0%Z.
Proof.
  destruct (excess_threshold demo demo_base demo_about_page empty_process)
    as (_ & Hmono & Hzero & _).
  split; [apply Hmono | apply Hzero]; lia.
Defined.

(** ** The visited set and the instances *)

(** On the small site the second instance finds the seed in the dictionary
    the first one filled and sends no request at all, while from an empty
    dictionary it sends four. *)
Lemma second_instance_skips_seed : ~ visited_set_per_instance.
Proof.
  intros H.
  assert (E1 : exists st1, crawl demo_web dedup 3 demo empty_process = Ok st1)
    by (eexists; vm_compute; reflexivity).
  destruct E1 as [st1 E1].
  assert (E2 : exists st2, crawl demo_web dedup 3 demo_second st1 = Ok st2).
  { vm_compute in E1. injection E1 as <-. eexists. vm_compute. reflexivity. }
  destruct E2 as [st2 E2].
  destruct (H demo_web dedup 3 demo demo_second st1 st2 E1 E2) as (st2' & E3 & R).
  vm_compute in E1. injection E1 as <-.
  vm_compute in E2. injection E2 as <-.
  vm_compute in E3. injection E3 as <-.
  vm_compute in R. discriminate R.
Qed.

(** C8 (as the code has it). [URLS_CHECKED] belongs to the class, not to
    an instance: creating a crawler does not touch it, every crawl of every
    instance in the process adds to the same dictionary, and nothing
    empties it. A crawl by a new instance therefore skips a seed that an
    earlier instance recorded: it returns at once, sending no request. *)
Theorem visited_set_shared (http_get : list (str * bool) -> str -> option str)
    (list_of_set : list str -> list str) (fuel1 fuel2 : nat)
    (first : NightCrawler) (base : str) (terms : list (str * Z)) (link_lookup : bool)
    (verbose : Z) (st0 st1 : process) :
  let second := __init__ base terms link_lookup verbose in
  crawl_inv st0 ->
  crawl http_get list_of_set fuel1 first st0 = Ok st1 ->
  (forall u, In u (keys (URLS_CHECKED st0)) -> In u (keys (URLS_CHECKED st1)))
  /\ (In (absolute second base) (keys (URLS_CHECKED st1)) ->
      exists st2, crawl http_get list_of_set (S fuel2) second st1 = Ok st2
                  /\ URLS_CHECKED st2 = URLS_CHECKED st1
                  /\ requests st2 = requests st1).
Proof.
  cbv zeta. intros I H. split.
  - now destruct (check_page_inv _ _ _ _ _ _ _ I H) as [_ [G _]].
  - intros M. unfold crawl. cbn [base_domain __init__].
    eexists. split; [apply check_page_visited; exact M|].
    now rewrite !write_URLS_CHECKED, !write_requests.
Qed.

Lemma visited_set_shared_witness :
  exists st1 st2,
    crawl demo_web dedup 3 demo empty_process = Ok st1
    /\ crawl demo_web dedup 1 demo_second st1 = Ok st2
    /\ URLS_CHECKED st2 = URLS_CHECKED st1
    /\ requests st2 = requests st1.
Proof.
  assert (E1 : exists st1, crawl demo_web dedup 3 demo empty_process = Ok st1
                           /\ In demo_base (keys (URLS_CHECKED st1))).
  { eexists. split; [vm_compute; reflexivity | left; reflexivity]. }
  destruct E1 as (st1 & E1 & M).
  destruct (visited_set_shared demo_web dedup 3 0 demo demo_base [(lit "bonus", 0%Z)]
              false 1 empty_process st1 crawl_inv_empty E1) as (_ & H).
  destruct (H M) as (st2 & E2 & K & R).
  exists st1, st2. repeat split; assumption.
Defined.

(** ** Report Builder *)

Lemma NoDup_keys_functional (d : dict) (k : str) (v1 v2 : Z) :
  NoDup (keys d) -> In (k, v1) d -> In (k, v2) d -> v1 = v2.
Proof.
  induction d as [|[k' v'] d IH]; simpl; intros N H1 H2; [contradiction|].
  inversion N as [|? ? Hk N']; subst.
  destruct H1 as [E1|H1], H2 as [E2|H2].
  - congruence.
  - injection E1 as -> ->. exfalso. apply Hk. apply (in_map fst) in H2. exact H2.
  - injection E2 as -> ->. exfalso. apply Hk. apply (in_map fst) in H1. exact H1.
  - now apply IH.
Qed.

Lemma In_keys (d : dict) (k : str) : In k (keys d) <-> exists v, In (k, v) d.
Proof.
  unfold keys. rewrite in_map_iff. split.
  - intros [[k' v] [E H]]. simpl in E. subst. now exists v.
  - intros [v H]. now exists (k, v).
Qed.

(** C9. For a visited set as the crawler builds it (distinct keys, no
    negative count), the report splits the entries in two: the clear pages
    are the entries with count 0, the flagged ones those with a positive
    count, every URL is in exactly one of the two, and the two page counts
    add up to the number of pages visited. *)
Theorem summary_partition (d : dict) :
  NoDup (keys d) ->
  Forall (fun e => (0 <= snd e)%Z) d ->
  (forall url qty, In (url, qty) (pages_clear d) <-> In (url, qty) d /\ qty = 0%Z)
  /\ (forall url qty, In (url, qty) (pages_with_terms d) <-> In (url, qty) d /\ (qty > 0)%Z)
  /\ (forall url, In url (keys d) ->
        (In url (keys (pages_clear d)) /\ ~ In url (keys (pages_with_terms d)))
        \/ (~ In url (keys (pages_clear d)) /\ In url (keys (pages_with_terms d))))
  /\ length (pages_clear d) + length (pages_with_terms d) = length d.
Proof.
  intros N P.
  assert (C : forall url qty, In (url, qty) (pages_clear d) <-> In (url, qty) d /\ qty = 0%Z).
  { intros url qty. unfold pages_clear. rewrite filter_In. cbn [snd]. now rewrite Z.eqb_eq. }
  assert (W : forall url qty,
             In (url, qty) (pages_with_terms d) <-> In (url, qty) d /\ (qty > 0)%Z).
  { intros url qty. unfold pages_with_terms. rewrite filter_In. cbn [snd].
    now rewrite Z.gtb_gt. }
  split; [exact C|]. split; [exact W|]. split.
  - intros url Hu. apply In_keys in Hu as [qty Hq].
    assert (Q : (0 <= qty)%Z) by (rewrite Forall_forall in P; exact (P _ Hq)).
    destruct (Z.eq_dec qty 0) as [->|Hne].
    + left. split.
      * apply In_keys. exists 0%Z. now apply C.
      * intros Hw. apply In_keys in Hw as [q' Hw]. apply W in Hw as [Hw Hpos].
        pose proof (NoDup_keys_functional d url 0 q' N Hq Hw). lia.
    + right. split.
      * intros Hc. apply In_keys in Hc as [q' Hc]. apply C in Hc as [Hc ->].
        pose proof (NoDup_keys_functional d url qty 0 N Hq Hc). lia.
      * apply In_keys. exists qty. apply W. split; [exact Hq | lia].
  - clear N C W. unfold pages_clear, pages_with_terms.
    induction P as [|[k v] d Hv P IH]; [reflexivity|].
    cbn [filter snd length] in *.
    pose proof (Z.eqb_spec v 0) as S0. pose proof (Z.gtb_spec v 0) as S1.
    destruct (v =? 0)%Z, (v >? 0)%Z; inversion S0; inversion S1; cbn [length]; lia.
Qed.

Lemma summary_partition_witness :
  exists st',
    crawl demo_web dedup 3 demo empty_process = Ok st'
    /\ length (pages_clear (URLS_CHECKED st')) + length (pages_with_terms (URLS_CHECKED st'))
       = length (URLS_CHECKED st').
Proof.
  assert (E : exists st', crawl demo_web dedup 3 demo empty_process = Ok st')
    by (eexists; vm_compute; reflexivity).
  destruct E as [st' E].
  exists st'. split; [exact E|].
  destruct (check_page_inv _ _ _ _ _ _ _ crawl_inv_empty E) as [[A B _ _] _].
  now destruct (summary_partition (URLS_CHECKED st') A B) as (_ & _ & _ & H).
Defined.

(** ** Term Matcher: what the patterns match *)

Module ReFacts.
Import Re.

Lemma tokenize_literal (t rest : str) :
  all_literal t = true ->
  tokenize (t ++ rest) = option_map (app (map TChar t)) (tokenize rest).
Proof.
  unfold all_literal. induction t as [|c t IH]; intros H.
  - simpl. now destruct (tokenize rest).
  - cbn [forallb] in H. apply andb_true_iff in H as [Hc Ht].
    cbn [app tokenize]. rewrite Hc, (IH Ht). now destruct (tokenize rest).
Qed.

Lemma parse_literal (t : str) (ts : list token) (cur : frame) (stack : list frame) :
  parse (map TChar t ++ ts) cur stack
  = parse ts {| f_alts := f_alts cur; f_cur := rev (map chr t) ++ f_cur cur;
                f_cap := f_cap cur |} stack.
Proof.
  revert cur; induction t as [|c t IH]; intros cur.
  - now destruct cur.
  - cbn [map app parse]. rewrite IH. cbn [push f_alts f_cur f_cap rev].
    now rewrite <- app_assoc.
Qed.

Lemma groups_literal (t : str) (l : list regex) :
  groups (seq_of (map chr t ++ l)) = groups (seq_of l).
Proof. induction t as [|c t IH]; [reflexivity | exact IH]. Qed.

(** [re.compile] takes a literal term as the sequence of its characters. *)
Lemma compile_literal (t : str) : all_literal t = true -> compile t = Some (literal_re t).
Proof.
  intros H. unfold compile.
  rewrite <- (app_nil_r t) at 1. rewrite (tokenize_literal t [] H). cbn [tokenize option_map].
  rewrite parse_literal. cbn [parse close f_alts f_cur f_cap rev app alt_of].
  rewrite app_nil_r, rev_involutive.
  pose proof (groups_literal t []) as G. rewrite app_nil_r in G.
  fold (literal_re t). unfold literal_re at 1. rewrite G. reflexivity.
Qed.

Lemma literal_not_question (c : ascii) : is_literal c = true -> chr_is c "?" = false.
Proof.
  unfold chr_is. destruct (ascii_eqb c "?") eqn:E; [|reflexivity].
  apply ascii_eqb_eq in E. subst. discriminate.
Qed.

(** The link pattern built around a literal term. *)
Lemma compile_link_pattern (t : str) :
  all_literal t = true ->
  compile (link_pattern t) = Some (delimited_re [] t [squote; dquote; hash]).
Proof.
  intros H. unfold compile, link_pattern.
  assert (T : tokenize (lit "(" ++ t ++ lit ".*?)(?:'|" ++ [dquote] ++ lit "|#)")
              = Some (TOpen true :: map TChar t
                      ++ [TDot; TLazyStar; TClose; TOpen false; TChar squote; TBar;
                          TChar dquote; TBar; TChar hash; TClose])).
  { change (lit "(" ++ t ++ lit ".*?)(?:'|" ++ [dquote] ++ lit "|#)")
      with ("("%char :: (t ++ lit ".*?)(?:'|" ++ [dquote] ++ lit "|#)")).
    cbn [tokenize]. change (is_literal "("%char) with false. cbv iota.
    change (chr_is "("%char ".") with false. change (chr_is "("%char "|") with false.
    change (chr_is "("%char ")") with false. change (chr_is "("%char "*") with false.
    change (chr_is "("%char "(") with true. cbv iota.
    rewrite (tokenize_literal t _ H).
    destruct t as [|c t].
    - reflexivity.
    - cbn [app]. cbn [all_literal forallb] in H. apply andb_true_iff in H as [Hc _].
      rewrite (literal_not_question c Hc). reflexivity. }
  rewrite T. cbn [parse]. rewrite parse_literal.
  cbn [parse close push f_alts f_cur f_cap rev app alt_of seq_of fold_right].
  rewrite app_nil_r, rev_involutive.
  unfold delimited_re. cbn [map app seq_of fold_right groups alt_chars alt_of].
  pose proof (groups_literal t [LazyStar CDot]) as G. unfold seq_of in G. rewrite G.
  reflexivity.
Qed.

Lemma compile_href_dq :
  compile href_dq_pattern = Some (delimited_re (lit "href=" ++ [dquote]) [] [dquote; hash]).
Proof. reflexivity. Qed.

Lemma compile_href_sq :
  compile href_sq_pattern = Some (delimited_re (lit "href='") [] [squote; hash]).
Proof. reflexivity. Qed.

End ReFacts.

(** ** Term Matcher: matching and reading agree *)

Module MatchFacts.
Import Re ReFacts.

Lemma startswith_length (t s : str) : startswith t s = true -> length t <= length s.
Proof.
  revert s; induction t as [|c t IH]; intros [|x s]; simpl; intros H; try lia; try discriminate.
  apply andb_true_iff in H as [_ H]. apply IH in H. lia.
Qed.

Lemma startswith_split (p t s : str) :
  startswith (p ++ t) s = startswith p s && startswith t (skipn (length p) s).
Proof.
  revert s; induction p as [|c p IH]; intros s; [reflexivity|].
  destruct s as [|x s]; [reflexivity|].
  cbn [app startswith length skipn]. rewrite IH. now rewrite andb_assoc.
Qed.

Lemma run_literal {R} (t : str) (l : list regex) (s : str) (g : option str)
    (k : str -> option str -> option R) :
  run (seq_of (map chr t ++ l)) s g k
  = if startswith t s then run (seq_of l) (skipn (length t) s) g k else None.
Proof.
  revert s; induction t as [|c t IH]; intros s; [reflexivity|].
  destruct s as [|x s]; [reflexivity|].
  cbn [map app seq_of fold_right run chr cset_mem startswith length skipn].
  destruct (ascii_eqb c x); [apply IH | reflexivity].
Qed.

Lemma match_at_literal (t : str) (adv : bool) (pos : nat) (s : str) :
  match_at (literal_re t) adv pos s
  = if startswith t s then
      if adv && (length t =? 0) then None
      else Some {| m_start := pos; m_text := firstn (length t) s; m_group := None |}
    else None.
Proof.
  unfold match_at, literal_re. rewrite <- (app_nil_r (map chr t)), run_literal.
  destruct (startswith t s) eqn:E; [|reflexivity].
  cbn [seq_of fold_right run]. apply startswith_length in E.
  rewrite length_skipn. replace (length s - (length s - length t)) with (length t) by lia.
  reflexivity.
Qed.

(** [re.finditer] on a literal term finds the occurrences [find_all] lists. *)
Lemma scan_literal (t : str) : forall s pos skip,
  map m_start (scan (literal_re t) pos skip s) = find_all t pos skip s.
Proof.
  induction s as [|x s IH]; intros pos skip; destruct skip as [|n];
    cbn [scan find_all]; try reflexivity; rewrite ?match_at_literal.
  - destruct (startswith t []) eqn:E; [|reflexivity].
    destruct t as [|c t]; [reflexivity | discriminate].
  - destruct (startswith t (x :: s)) eqn:E; [|apply IH].
    pose proof (startswith_length _ _ E) as L.
    cbn [andb m_text]. rewrite firstn_length_le by exact L.
    destruct t as [|c t].
    + cbn [length Nat.eqb andb map m_start pred]. now rewrite IH.
    + cbn [length map m_start pred]. now rewrite IH.
  - apply IH.
Qed.

Lemma lazy_star_ext {R} (cs : cset) (k1 k2 : str -> option R) :
  (forall s, k1 s = k2 s) -> forall s, lazy_star cs k1 s = lazy_star cs k2 s.
Proof.
  intros H. induction s as [|c s IH]; cbn [lazy_star]; rewrite H; [reflexivity|].
  now rewrite IH.
Qed.

Lemma run_alt_chars {R} (c1 : ascii) (ts : list ascii) (s : str) (g : option str)
    (k : str -> option str -> option R) :
  run (alt_chars (c1 :: ts)) s g k
  = match s with
    | c :: s' => if is_stop (c1 :: ts) c then k s' g else None
    | [] => None
    end.
Proof.
  unfold alt_chars. cbn [map]. revert c1; induction ts as [|c2 ts IH]; intros c1.
  - cbn [map alt_of seq_of fold_right run chr cset_mem is_stop existsb].
    destruct s as [|c s]; [reflexivity|]. now rewrite orb_false_r.
  - cbn [map alt_of]. cbn [run]. rewrite IH.
    cbn [seq_of fold_right run chr cset_mem].
    destruct s as [|c s]; [reflexivity|].
    change (is_stop (c1 :: c2 :: ts) c) with (ascii_eqb c1 c || is_stop (c2 :: ts) c).
    destruct (ascii_eqb c1 c); cbn [orb]; [|reflexivity].
    destruct (k s g); [reflexivity|]. now destruct (is_stop (c2 :: ts) c).
Qed.

Lemma lazy_star_first_stop {R} (ts : list ascii) (F : str -> str -> R) : forall s,
  lazy_star CDot
    (fun s' => match s' with
               | c :: s'' => if is_stop ts c then Some (F s' s'') else None
               | [] => None
               end) s
  = match first_stop not_newline ts s with
    | Some k => Some (F (skipn k s) (skipn (S k) s))
    | None => None
    end.
Proof.
  induction s as [|c s IH]; [reflexivity|].
  cbn [lazy_star first_stop]. destruct (is_stop ts c); [reflexivity|].
  change (cset_mem CDot c) with (not_newline c).
  destruct (not_newline c); [|reflexivity].
  rewrite IH. now destruct (first_stop not_newline ts s).
Qed.

Lemma first_stop_lt (body : ascii -> bool) (ts : list ascii) : forall s k,
  first_stop body ts s = Some k -> k < length s.
Proof.
  induction s as [|c s IH]; intros k; cbn [first_stop length]; [discriminate|].
  destruct (is_stop ts c); [intros H; injection H as <-; lia|].
  destruct (body c); [|discriminate].
  destruct (first_stop body ts s) as [j|]; [|discriminate].
  intros H; injection H as <-. specialize (IH j eq_refl). lia.
Qed.

Lemma match_at_delimited (p t : str) (c1 : ascii) (ts : list ascii) (pos : nat) (s : str) :
  match_at (delimited_re p t (c1 :: ts)) false pos s
  = match (if startswith (p ++ t) s
           then first_stop not_newline (c1 :: ts) (skipn (length p + length t) s)
           else None) with
    | Some k =>
      Some {| m_start := pos;
              m_text := firstn (S (length p + length t + k)) s;
              m_group := Some (firstn (length t + k) (skipn (length p) s)) |}
    | None => None
    end.
Proof.
  unfold match_at, delimited_re. rewrite run_literal, startswith_split.
  destruct (startswith p s) eqn:Ep; [|reflexivity].
  cbn [seq_of fold_right andb]. cbn [run].
  change (fold_right Seq Eps (map chr t ++ [LazyStar CDot]))
    with (seq_of (map chr t ++ [LazyStar CDot])).
  rewrite run_literal.
  set (s0 := skipn (length p) s).
  destruct (startswith t s0) eqn:Et; [|reflexivity].
  cbn [seq_of fold_right run].
  erewrite lazy_star_ext by (intros s'; apply run_alt_chars).
  cbn [andb].
  rewrite (lazy_star_first_stop (c1 :: ts)
             (fun s' s'' => {| m_start := pos;
                               m_text := firstn (length s - length s'') s;
                               m_group := Some (firstn (length s0 - length s') s0) |})).
  assert (Es : skipn (length p + length t) s = skipn (length t) s0)
    by (unfold s0; now rewrite skipn_skipn, (Nat.add_comm (length t))).
  rewrite Es.
  destruct (first_stop not_newline (c1 :: ts) (skipn (length t) s0)) as [k|] eqn:Ek;
    [|reflexivity].
  apply first_stop_lt in Ek. rewrite length_skipn in Ek.
  apply startswith_length in Ep, Et.
  assert (L0 : length s0 = length s - length p) by (unfold s0; apply length_skipn).
  rewrite !length_skipn.
  do 2 f_equal; f_equal; try f_equal; lia.
Qed.

(** [re.findall] on a pattern of the shape [delimited_re] yields the runs
    [delimited] lists, with [.] standing for any character but a line feed. *)
Lemma scan_delimited (p t : str) (c1 : ascii) (ts : list ascii) : forall s pos skip,
  map (fun f => match m_group f with Some g => g | None => [] end)
      (scan (delimited_re p t (c1 :: ts)) pos skip s)
  = delimited not_newline p t (c1 :: ts) skip s.
Proof.
  induction s as [|x s IH]; intros pos skip; destruct skip as [|n];
    cbn [scan delimited]; try reflexivity; rewrite ?match_at_delimited.
  - destruct (startswith (p ++ t) []); [|reflexivity].
    rewrite skipn_nil. reflexivity.
  - destruct (if startswith (p ++ t) (x :: s)
              then first_stop not_newline (c1 :: ts) (skipn (length p + length t) (x :: s))
              else None) as [k|] eqn:E; [|apply IH].
    cbn [m_text map m_group].
    destruct (startswith (p ++ t) (x :: s)) eqn:Es; [|discriminate].
    apply first_stop_lt in E. rewrite length_skipn in E.
    rewrite firstn_length_le by lia. now rewrite IH.
  - apply IH.
Qed.

End MatchFacts.

(** ** Term Matcher: counts *)

Import ReFacts MatchFacts.

Lemma groups_alt_chars (ts : list ascii) : Re.groups (alt_chars ts) = 0.
Proof.
  unfold alt_chars. destruct ts as [|c ts]; [reflexivity|]. cbn [map].
  revert c; induction ts as [|d ts IH]; intros c; [reflexivity|].
  cbn [map Re.alt_of Re.groups]. now rewrite IH.
Qed.

Lemma groups_delimited (p t : str) (ts : list ascii) : Re.groups (delimited_re p t ts) = 1.
Proof.
  unfold delimited_re. rewrite groups_literal. cbn [Re.seq_of fold_right Re.groups].
  change (fold_right Re.Seq Re.Eps (map chr t ++ [Re.LazyStar Re.CDot]))
    with (Re.seq_of (map chr t ++ [Re.LazyStar Re.CDot])).
  rewrite groups_literal, groups_alt_chars. reflexivity.
Qed.

Lemma findall_delimited (p t : str) (c1 : ascii) (ts : list ascii) (content : str) :
  Re.findall (delimited_re p t (c1 :: ts)) content
  = delimited not_newline p t (c1 :: ts) 0 content.
Proof.
  unfold Re.findall, Re.finditer. rewrite groups_delimited. apply scan_delimited.
Qed.

Lemma re_finditer_literal (t content : str) :
  all_literal t = true ->
  exists found, re_finditer t content = Some found
                /\ map Re.m_start found = find_all t 0 0 content.
Proof.
  intros H. unfold re_finditer. rewrite (compile_literal t H). cbn [option_map].
  eexists. split; [reflexivity|]. apply scan_literal.
Qed.

Lemma re_findall_link (t content : str) :
  all_literal t = true ->
  re_findall (link_pattern t) content = Some (delimited not_newline [] t link_stops 0 content).
Proof.
  intros H. unfold re_findall. rewrite (compile_link_pattern t H). cbn [option_map].
  f_equal. apply findall_delimited.
Qed.

Lemma re_findall_href_dq (content : str) :
  re_findall href_dq_pattern content
  = Some (delimited not_newline (lit "href=" ++ [dquote]) [] [dquote; hash] 0 content).
Proof.
  unfold re_findall. rewrite compile_href_dq. cbn [option_map].
  f_equal. apply findall_delimited.
Qed.

Lemma re_findall_href_sq (content : str) :
  re_findall href_sq_pattern content
  = Some (delimited not_newline (lit "href='") [] [squote; hash] 0 content).
Proof.
  unfold re_findall. rewrite compile_href_sq. cbn [option_map].
  f_equal. apply findall_delimited.
Qed.

Lemma find_all_occurs (t : str) : forall s pos skip p,
  In p (find_all t pos skip s) ->
  pos + skip <= p /\ startswith t (skipn (p - pos) s) = true.
Proof.
  induction s as [|x s IH]; intros pos skip p; destruct skip as [|n]; cbn [find_all].
  - destruct (startswith t []) eqn:E; [|intros []].
    intros [<-|[]]. rewrite Nat.sub_diag. split; [lia | exact E].
  - intros [].
  - destruct (startswith t (x :: s)) eqn:E.
    + intros [<-|H].
      * rewrite Nat.sub_diag. split; [lia | exact E].
      * apply IH in H as [H1 H2]. split; [lia|].
        replace (p - pos) with (S (p - S pos)) by lia. exact H2.
    + intros H. apply IH in H as [H1 H2]. split; [lia|].
      replace (p - pos) with (S (p - S pos)) by lia. exact H2.
  - intros H. apply IH in H as [H1 H2]. split; [lia|].
    replace (p - pos) with (S (p - S pos)) by lia. exact H2.
Qed.

Lemma stdout_write self m level st :
  stdout (write self m level st)
  = stdout st ++ (if (level <=? verbose_level self)%Z then [m] else []).
Proof.
  unfold write. destruct (level <=? verbose_level self)%Z; [reflexivity|].
  now rewrite app_nil_r.
Qed.

Lemma stdout_fold_write {A} self (f : A -> message) level (l : list A) : forall st,
  stdout (fold_left (fun st x => write self (f x) level st) l st)
  = stdout st ++ (if (level <=? verbose_level self)%Z then map f l else []).
Proof.
  induction l as [|x l IH]; intros st; cbn [fold_left map].
  - destruct (level <=? verbose_level self)%Z; now rewrite app_nil_r.
  - rewrite IH, stdout_write.
    destruct (level <=? verbose_level self)%Z; now rewrite <- app_assoc.
Qed.

Lemma term_count_plain (self : NightCrawler) (content t : str) :
  use_link_lookup self = false ->
  all_literal t = true ->
  term_count self content t = Some (Z.of_nat (length (find_all t 0 0 content))).
Proof.
  intros Hm Ht. destruct (re_finditer_literal t content Ht) as (found & Hf & Hp).
  unfold term_count. rewrite Hm, Hf. cbn [option_map]. now rewrite <- Hp, length_map.
Qed.

Lemma term_count_link (self : NightCrawler) (content t : str) :
  use_link_lookup self = true ->
  all_literal t = true ->
  term_count self content t
  = Some (Z.of_nat (length (delimited not_newline [] t link_stops 0 content))).
Proof.
  intros Hm Ht. unfold term_count. rewrite Hm, (re_findall_link t content Ht). reflexivity.
Qed.

(** The claim of C2 read literally fails: [aa] occurs at two places of
    [aaa], and the crawler counts one; [a.c] occurs nowhere in [abc], and
    the crawler counts one. *)
Lemma plain_count_skips_overlaps :
  term_count demo (lit "aaa") (lit "aa")
  <> Some (Z.of_nat (length (find_overlapping (lit "aa") 0 (lit "aaa"))))
  /\ term_count demo (lit "abc") (lit "a.c")
     <> Some (Z.of_nat (length (find_overlapping (lit "a.c") 0 (lit "abc")))).
Proof. split; vm_compute; discriminate. Qed.

(** C2 (as the code has it). In plain-text mode, for a term of literal
    characters, the count is the number of occurrences of the term met when
    reading the content from left to right, each search starting where the
    previous occurrence ended, so that occurrences overlapping an earlier
    one are not counted. When the term exceeds its threshold, the context
    printed for each of these occurrences is the text of length
    [len(term) + 30] from its start, cut at the end of the content. *)
Theorem plain_text_count (self : NightCrawler) (url content t : str) (max_qty total : Z)
    (st : process) :
  use_link_lookup self = false ->
  all_literal t = true ->
  let positions := find_all t 0 0 content in
  let count := Z.of_nat (length positions) in
  let window p := firstn (length t + 30) (skipn p content) in
  term_count self content t = Some count
  /\ (forall p, In p positions -> startswith t (skipn p content) = true)
  /\ (exists st',
        check_term self url content (t, max_qty) (total, st)
        = Ok ((total + count_beyond count max_qty)%Z, st')
        /\ stdout st'
           = stdout st ++
             (if (count_beyond count max_qty =? 0)%Z || negb (1 <=? verbose_level self)%Z
              then []
              else MsgFoundHtml url count t :: map (fun p => MsgHtml url (window p)) positions))
  /\ (forall p, length (window p) = Nat.min (length t + 30) (length content - p)).
Proof.
  intros Hm Ht positions count window.
  destruct (re_finditer_literal t content Ht) as (found & Hf & Hp).
  assert (Hc : Z.of_nat (length found) = count).
  { unfold count, positions. now rewrite <- Hp, length_map. }
  split; [|split; [|split]].
  - now apply term_count_plain.
  - intros p Hin. apply find_all_occurs in Hin as [_ H]. now rewrite Nat.sub_0_r in H.
  - unfold check_term. rewrite Hm, Hf. cbn [of_option bind].
    rewrite length_map, Hc.
    destruct (count_beyond count max_qty =? 0)%Z.
    + eexists. split; [reflexivity|]. cbn [orb]. now rewrite app_nil_r.
    + eexists. split; [reflexivity|]. cbn [orb].
      rewrite stdout_fold_write, stdout_write, Hp. fold positions.
      destruct (1 <=? verbose_level self)%Z; cbn [negb].
      * rewrite <- app_assoc. cbn [app]. do 2 f_equal.
        apply map_ext. intros p. unfold slice, window, STR_CONTEXT_SIZE.
        do 2 f_equal. lia.
      * now rewrite !app_nil_r.
  - intros p. unfold window. now rewrite length_firstn, length_skipn.
Qed.

Lemma plain_text_count_witness :
  term_count demo demo_about_page (lit "promotion") = Some 3%Z
  /\ find_all (lit "promotion") 0 0 demo_about_page = [64; 74; 84].
Proof.
  destruct (plain_text_count demo demo_base demo_about_page (lit "promotion") 1 0
              empty_process eq_refl eq_refl) as (H & _).
  split; [exact H | reflexivity].
Defined.

(** The claim of C6 read literally fails: a term followed by a line break
    and then a quote is a run up to the next quote, and the crawler does
    not count it; [a.c] does not occur in [abc], and the crawler counts the
    run [abc]; and in Scenario C what is captured starts at the term, not
    at the start of the link. *)
Lemma link_count_stops_at_line_break :
  term_count demo_links (lit "promotion" ++ [newline; dquote]) (lit "promotion")
  <> Some (Z.of_nat (length (delimited any_char [] (lit "promotion") link_stops 0
                               (lit "promotion" ++ [newline; dquote]))))
  /\ term_count demo_links (lit "abc" ++ [dquote]) (lit "a.c")
     <> Some (Z.of_nat (length (delimited any_char [] (lit "a.c") link_stops 0
                                  (lit "abc" ++ [dquote]))))
  /\ re_findall (link_pattern (lit "promotion")) scenario_c_content
     <> Some [lit "http://x.com/promotion/abc"; lit "http://x.com/promotion/def"].
Proof. repeat split; vm_compute; discriminate. Qed.

Lemma startswith_firstn (t s : str) (n : nat) :
  startswith t s = true -> startswith t (firstn (length t + n) s) = true.
Proof.
  revert s; induction t as [|c t IH]; intros s; [reflexivity|].
  destruct s as [|x s]; [discriminate|].
  cbn [startswith length Nat.add firstn]. rewrite !andb_true_iff.
  intros [H1 H2]. split; [exact H1 | now apply IH].
Qed.

Lemma delimited_starts (body : ascii -> bool) (t : str) (ts : list ascii) : forall s skip r,
  In r (delimited body [] t ts skip s) -> startswith t r = true.
Proof.
  induction s as [|x s IH]; intros skip r; destruct skip as [|n]; cbn [delimited].
  - cbn [app length Nat.add skipn].
    destruct (startswith t []) eqn:E; [|intros []].
    destruct (first_stop body ts (skipn (length t) [])); [|intros []].
    intros [<-|[]]. now apply startswith_firstn.
  - intros [].
  - cbn [app length Nat.add]. change (skipn 0 (x :: s)) with (x :: s).
    destruct (startswith t (x :: s)) eqn:E; [|apply IH].
    destruct (first_stop body ts (skipn (length t) (x :: s))); [|apply IH].
    intros [<-|H]; [now apply startswith_firstn | now apply IH in H].
  - apply IH.
Qed.

(** C6 (as the code has it). In link-lookup mode, for a term of literal
    characters, the occurrences are the runs met when reading the content
    from left to right: a run starts at an occurrence of the term and goes
    up to, not including, the next single quote, double quote or [#],
    provided no line break comes before that character (an occurrence of
    the term with a line break before the next such character is not
    counted); the count is the number of runs. For the content of
    Scenario C (two [href] attributes, to [http://x.com/promotion/abc] and
    to [http://x.com/promotion/def], in double quotes), with term
    [promotion] and threshold 0, the occurrences are
    [promotion/abc] and [promotion/def], the count is 2 and the total
    excess is 2. *)
Theorem link_mode_count (self : NightCrawler) (url content t : str) (max_qty total : Z)
    (st : process) :
  use_link_lookup self = true ->
  all_literal t = true ->
  let occurrences := delimited not_newline [] t link_stops 0 content in
  let count := Z.of_nat (length occurrences) in
  re_findall (link_pattern t) content = Some occurrences
  /\ term_count self content t = Some count
  /\ (forall r, In r occurrences -> startswith t r = true)
  /\ (exists st',
        check_term self url content (t, max_qty) (total, st)
        = Ok ((total + count_beyond count max_qty)%Z, st')
        /\ stdout st'
           = stdout st ++
             (if (count_beyond count max_qty =? 0)%Z || negb (1 <=? verbose_level self)%Z
              then []
              else MsgFoundLinks url count t :: map (MsgLink url) occurrences))
  /\ re_findall (link_pattern (lit "promotion")) scenario_c_content
     = Some [lit "promotion/abc"; lit "promotion/def"]
  /\ term_count demo_links scenario_c_content (lit "promotion") = Some 2%Z
  /\ res_map fst (check_terms demo_links demo_base scenario_c_content empty_process)
     = Ok 2%Z.
Proof.
  intros Hm Ht occurrences count. split; [|split; [|split; [|split; [|split; [|split]]]]].
  - now apply re_findall_link.
  - now apply term_count_link.
  - intros r. apply delimited_starts.
  - unfold check_term. rewrite Hm, (re_findall_link t content Ht). cbn [of_option bind].
    fold occurrences. fold count.
    destruct (count_beyond count max_qty =? 0)%Z.
    + eexists. split; [reflexivity|]. cbn [orb]. now rewrite app_nil_r.
    + eexists. split; [reflexivity|]. cbn [orb].
      rewrite stdout_fold_write, stdout_write.
      destruct (1 <=? verbose_level self)%Z; cbn [negb].
      * now rewrite <- app_assoc.
      * now rewrite !app_nil_r.
  - reflexivity.
  - reflexivity.
  - reflexivity.
Qed.

Lemma link_mode_count_witness :
  re_findall (link_pattern (lit "promotion")) demo_about_page
  = Some (delimited not_newline [] (lit "promotion") link_stops 0 demo_about_page).
Proof.
  apply (link_mode_count demo_links demo_base demo_about_page (lit "promotion") 0 0
           empty_process eq_refl eq_refl).
Defined.

(** The claim of C10 read literally fails in link-lookup mode: [promotion]
    occurs once in the content [promotion], and the crawler counts no
    link. *)
Lemma link_count_is_not_occurrences :
  term_count demo_links (lit "promotion") (lit "promotion")
  <> Some (Z.of_nat (length (find_all (lit "promotion") 0 0 (lit "promotion")))).
Proof. vm_compute. discriminate. Qed.

(** C10 (as the code has it). In both modes the term goes into the
    pattern text as it is. For a term of literal characters the pattern is
    the sequence of these characters; the plain-text count is then the
    number of non-overlapping occurrences of the term, and the link-lookup
    count the number of runs from an occurrence of the term to the next
    quote or [#] on the same line. A term with a special character is read
    as a pattern: [promotion.domain.com] is found once, in either mode, in
    a content where that text does not occur. *)
Theorem term_is_pattern (self : NightCrawler) (content t : str) :
  all_literal t = true ->
  Re.compile t = Some (literal_re t)
  /\ Re.compile (link_pattern t) = Some (delimited_re [] t link_stops)
  /\ (use_link_lookup self = false ->
      term_count self content t = Some (Z.of_nat (length (find_all t 0 0 content))))
  /\ (use_link_lookup self = true ->
      term_count self content t
      = Some (Z.of_nat (length (delimited not_newline [] t link_stops 0 content))))
  /\ (let dotted := lit "promotion.domain.com" in
      let page := lit "href='http://promotionXdomainYcom/'" in
      find_all dotted 0 0 page = []
      /\ term_count demo page dotted = Some 1%Z
      /\ term_count demo_links page dotted = Some 1%Z).
Proof.
  intros Ht. split; [|split; [|split; [|split]]].
  - now apply compile_literal.
  - now apply compile_link_pattern.
  - intros Hm. now apply term_count_plain.
  - intros Hm. now apply term_count_link.
  - cbv zeta. repeat split; reflexivity.
Qed.

Lemma term_is_pattern_witness :
  Re.compile (lit "promotion") = Some (literal_re (lit "promotion"))
  /\ term_count demo demo_about_page (lit "promotion")
     = Some (Z.of_nat (length (find_all (lit "promotion") 0 0 demo_about_page)))
  /\ term_count demo_links scenario_c_content (lit "promotion")
     = Some (Z.of_nat (length (delimited not_newline [] (lit "promotion") link_stops 0
                                scenario_c_content))).
Proof.
  split; [|split].
  - apply (term_is_pattern demo demo_about_page (lit "promotion") eq_refl).
  - apply (term_is_pattern demo demo_about_page (lit "promotion") eq_refl). reflexivity.
  - apply (term_is_pattern demo_links scenario_c_content (lit "promotion") eq_refl).
    reflexivity.
Defined.

(** ** Traversal Engine: child links *)

Lemma dedup_spec (l : list str) : NoDup (dedup l) /\ (forall x, In x (dedup l) <-> In x l).
Proof. unfold dedup. split; [apply NoDup_nodup | intros x; apply nodup_In]. Qed.

(** The claim of C7 read literally fails: an [href] value in double
    quotes made of [/a], a line break and [/b] ends at the matching quote,
    and the crawler does not take it as a link. *)
Lemma href_value_stops_at_line_break :
  let content := lit "<a href=" ++ [dquote] ++ lit "/a" ++ [newline] ++ lit "/b" ++ [dquote]
                 ++ lit ">" in
  child_links dedup demo content
  <> Ok (filter (is_useful_link demo) (dedup (map strip (href_values any_char content)))).
Proof. vm_compute. discriminate. Qed.

Section ChildLinks.

Variable http_get : list (str * bool) -> str -> option str.
Variable list_of_set : list str -> list str.

(** A set holds each element once, and the elements put into it. *)
Hypothesis list_of_set_spec :
  forall l, NoDup (list_of_set l) /\ (forall x, In x (list_of_set l) <-> In x l).

Lemma child_links_eq (self : NightCrawler) (content : str) :
  child_links list_of_set self content
  = Ok (filter (is_useful_link self)
          (list_of_set (map strip (href_values not_newline content)))).
Proof.
  unfold child_links. rewrite re_findall_href_dq, re_findall_href_sq. reflexivity.
Qed.

Lemma NoDup_singleton (l : list str) (a : str) :
  NoDup l -> (forall x, In x l <-> x = a) -> l = [a].
Proof.
  intros N H. destruct l as [|x l].
  - exfalso. now apply (H a).
  - assert (x = a) by (apply H; now left). subst x.
    destruct l as [|y l]; [reflexivity|].
    assert (y = a) by (apply H; right; now left). subst y.
    inversion N as [|? ? Hn _]. exfalso. apply Hn. now left.
Qed.

(** C7 (as the code has it). The child URLs [check_page] goes into, once
    a page is fetched and scored, are the [href] values of the raw content
    in double quotes and in single quotes, each running to the matching
    quote or to a [#] with no line break before it, stripped of
    surrounding white space, each taken once, and kept when
    [is_useful_link] accepts them. For the content of Scenario A (an anchor
    to [/about] and one to [http://evil.com/x.pdf]) and the base domain
    [http://my.base.domain] the only one is [/about]. *)
Theorem child_links_exact (self : NightCrawler) (content : str) :
  exists links,
    child_links list_of_set self content = Ok links
    /\ NoDup links
    /\ (forall l, In l links <->
          (exists v, In v (href_values not_newline content) /\ l = strip v)
          /\ is_useful_link self l = true)
    /\ (forall fuel url st total st1,
          let u := absolute self url in
          ~ In u (keys (URLS_CHECKED st)) ->
          http_get (requests st) u = Some content ->
          check_terms self u content
            (log_request u true (write self (MsgInit u) 2 (write self MsgRule 2 st)))
            = Ok (total, st1) ->
          check_page http_get list_of_set (S fuel) self url st
          = for_each (check_page http_get list_of_set fuel self) links
              (set_checked u total st1))
    /\ child_links list_of_set demo scenario_a_content = Ok [lit "/about"].
Proof.
  eexists. split; [apply child_links_eq|].
  split; [|split; [|split]].
  - apply NoDup_filter, list_of_set_spec.
  - intros l. rewrite filter_In.
    destruct (list_of_set_spec (map strip (href_values not_newline content))) as [_ H].
    rewrite H, in_map_iff. split.
    + intros [(v & E & Hv) Hu]. split; [now exists v | exact Hu].
    + intros [(v & Hv & E) Hu]. split; [now exists v | exact Hu].
  - intros fuel url st total st1 u M G T.
    rewrite (check_page_fetched _ _ _ fuel url st content M G). fold u. rewrite T.
    cbn [bind fst snd]. now rewrite child_links_eq.
  - rewrite child_links_eq. f_equal.
    destruct (list_of_set_spec (map strip (href_values not_newline scenario_a_content)))
      as [N H].
    apply NoDup_singleton; [now apply NoDup_filter|].
    intros x. rewrite filter_In, H.
    change (map strip (href_values not_newline scenario_a_content))
      with [lit "/about"; lit "http://evil.com/x.pdf"].
    split.
    + intros [[<-|[<-|[]]] Hu]; [reflexivity | discriminate Hu].
    + intros ->. split; [now left | reflexivity].
Qed.

End ChildLinks.

Lemma child_links_exact_witness :
  child_links dedup demo demo_seed_page = Ok [lit "/about"; lit "/broken"]
  /\ child_links dedup demo scenario_a_content = Ok [lit "/about"].
Proof.
  destruct (child_links_exact demo_web dedup dedup_spec demo demo_seed_page)
    as (links & E & _ & _ & _ & A).
  split; [reflexivity | exact A].
Defined.

(** * Further properties *)

(** ** The command line *)

Lemma split_no_sep (sep : ascii) (s : str) : ~ In sep s -> split sep s = [s].
Proof.
  induction s as [|c s IH]; intros H; [reflexivity|].
  cbn [split]. destruct (ascii_eqb c sep) eqn:E.
  - apply ascii_eqb_eq in E. exfalso. apply H. now left.
  - rewrite IH; [reflexivity | intros Hin; apply H; now right].
Qed.

Lemma split_at_sep (sep : ascii) (t q : str) :
  ~ In sep t -> split sep (t ++ sep :: q) = t :: split sep q.
Proof.
  induction t as [|c t IH]; intros H.
  - cbn [app split]. now rewrite ascii_eqb_refl.
  - cbn [app split]. destruct (ascii_eqb c sep) eqn:E.
    + apply ascii_eqb_eq in E. exfalso. apply H. now left.
    + rewrite IH; [reflexivity | intros Hin; apply H; now right].
Qed.

Lemma split_length (sep : ascii) (s : str) :
  length (split sep s) = S (count_occ ascii_dec s sep).
Proof.
  induction s as [|c s IH]; [reflexivity|].
  cbn [split count_occ]. destruct (ascii_eqb c sep) eqn:E.
  - apply ascii_eqb_eq in E. subst. destruct (ascii_dec sep sep); [|contradiction].
    cbn [length]. now rewrite IH.
  - destruct (ascii_dec c sep) as [->|_]; [now rewrite ascii_eqb_refl in E|].
    destruct (split sep s) as [|part parts]; [discriminate IH | exact IH].
Qed.

Lemma In_dict_set (k : str) (v : Z) (d : dict) : In (k, v) (dict_set k v d).
Proof.
  induction d as [|[k' v'] d IH]; cbn [dict_set]; [now left|].
  destruct (str_eqb k k') eqn:E.
  - apply str_eqb_eq in E. subst. now left.
  - now right.
Qed.

Section CommandLine.

Variable int : str -> option Z.

(** X1. A term text with no colon, or with two or more, is taken whole as
    the term, with threshold [int('0')]: the unpacking of the split raises
    [ValueError], which is caught. *)
Theorem parse_term_whole (term_data : str) (unwanted_terms : dict) :
  count_occ ascii_dec term_data colon <> 1 ->
  int (lit "0") = Some 0%Z ->
  parse_term int term_data unwanted_terms = Some (dict_set term_data 0 unwanted_terms).
Proof.
  intros Hc H0. unfold parse_term.
  pose proof (split_length colon term_data) as L.
  destruct (split colon term_data) as [|a [|b [|c l]]]; cbn [length] in L;
    try (rewrite H0; reflexivity).
  exfalso. apply Hc. lia.
Qed.

Lemma parse_term_threshold_eq (term qty : str) (unwanted_terms : dict) :
  ~ In colon term -> ~ In colon qty ->
  parse_term int (term ++ colon :: qty) unwanted_terms
  = option_map (fun n => dict_set term n unwanted_terms) (int qty).
Proof.
  intros Ht Hq. unfold parse_term.
  rewrite (split_at_sep colon term qty Ht), (split_no_sep colon qty Hq).
  now destruct (int qty).
Qed.

(** X2. A term text with exactly one colon gives the text before it as
    the term and [int] of the text after it as the threshold; when [int]
    raises, so does the round. *)
Theorem parse_term_threshold (term qty : str) (unwanted_terms : dict) :
  ~ In colon term -> ~ In colon qty ->
  parse_term int (term ++ colon :: qty) unwanted_terms
  = option_map (fun n => dict_set term n unwanted_terms) (int qty).
Proof.
  apply parse_term_threshold_eq.
Qed.

Lemma parse_terms_app (a b : list str) (u : dict) :
  parse_terms int (a ++ b) u
  = match parse_terms int a u with
    | Some u' => parse_terms int b u'
    | None => None
    end.
Proof.
  revert u; induction a as [|d a IH]; intros u; [reflexivity|].
  cbn [app parse_terms]. destruct (parse_term int d u); [apply IH | reflexivity].
Qed.

Lemma parse_term_keys (d : str) (u u' : dict) :
  parse_term int d u = Some u' -> NoDup (keys u) -> NoDup (keys u').
Proof.
  unfold parse_term.
  destruct (match split colon d with [term; qty] => (term, qty) | _ => (d, lit "0") end)
    as [term qty].
  destruct (int qty); [|discriminate].
  intros H; injection H as <-. apply NoDup_keys_dict_set.
Qed.

Lemma parse_terms_keys (specs : list str) : forall u d,
  parse_terms int specs u = Some d -> NoDup (keys u) -> NoDup (keys d).
Proof.
  induction specs as [|s specs IH]; intros u d; cbn [parse_terms].
  - intros H; injection H as <-. auto.
  - destruct (parse_term int s u) as [u1|] eqn:E1; [|discriminate].
    intros H N. apply (IH u1 d H). eapply parse_term_keys; eassumption.
Qed.

(** X4. The terms dictionary the script builds has each term once, and
    for a term given several times the threshold given last is the one
    kept. *)
Theorem parse_terms_last_wins (specs : list str) (term qty : str) (n : Z) (d : dict) :
  ~ In colon term -> ~ In colon qty ->
  int qty = Some n ->
  parse_terms int (specs ++ [term ++ colon :: qty]) [] = Some d ->
  NoDup (keys d) /\ In (term, n) d.
Proof.
  intros Ht Hq Hn. rewrite parse_terms_app.
  destruct (parse_terms int specs []) as [u|] eqn:E; [|discriminate].
  cbn [parse_terms]. rewrite (parse_term_threshold_eq term qty u Ht Hq), Hn. cbn [option_map].
  intros H; injection H as <-. split; [|apply In_dict_set].
  apply NoDup_keys_dict_set. apply (parse_terms_keys specs [] u E). constructor.
Qed.

End CommandLine.

(** ** Scores *)

Lemma term_count_nonneg (self : NightCrawler) (content t : str) (c : Z) :
  term_count self content t = Some c -> (0 <= c)%Z.
Proof.
  unfold term_count. destruct (use_link_lookup self).
  - destruct (re_findall (link_pattern t) content); [|discriminate].
    intros H; injection H as <-. lia.
  - destruct (re_finditer t content); [|discriminate].
    intros H; injection H as <-. lia.
Qed.

(** The loop over the terms ends with the sum of the excesses, or on the
    first term outside the pattern fragment; it changes neither the
    dictionary nor the request log. *)
Lemma check_terms_cases (self : NightCrawler) (url content : str) (terms : list (str * Z)) :
  forall total st,
    (exists e st',
        total_excess self content terms = Some e
        /\ for_each (check_term self url content) terms (total, st) = Ok ((total + e)%Z, st')
        /\ URLS_CHECKED st' = URLS_CHECKED st /\ requests st' = requests st)
    \/ (total_excess self content terms = None
        /\ for_each (check_term self url content) terms (total, st) = BadPattern).
Proof.
  induction terms as [|[t q] terms IH]; intros total st.
  - left. exists 0%Z, st. cbn [total_excess for_each]. rewrite Z.add_0_r. auto.
  - cbn [total_excess for_each].
    destruct (term_count self content t) as [c|] eqn:E.
    + destruct (check_term_Some self url content t q total st c E) as [st1 E1].
      rewrite E1. cbn [bind].
      apply check_term_Ok in E1 as (_ & F1 & F2).
      destruct (IH (total + count_beyond c q)%Z st1)
        as [(e & st' & Ee & Ef & G1 & G2) | (Ee & Ef)].
      * left. exists (count_beyond c q + e)%Z, st'. rewrite Ee, Ef.
        split; [reflexivity|]. split; [f_equal; f_equal; lia|].
        split; congruence.
      * right. rewrite Ee, Ef. auto.
    + right. rewrite (check_term_None self url content t q total st E). auto.
Qed.

Lemma total_excess_zero (self : NightCrawler) (content : str) (terms : list (str * Z)) :
  forall total,
    total_excess self content terms = Some total ->
    (0 <= total)%Z
    /\ (total = 0%Z <->
        forall t q c, In (t, q) terms -> term_count self content t = Some c -> (c <= q)%Z)
    /\ (forall t q, In (t, q) terms -> (- q <= total)%Z).
Proof.
  induction terms as [|[t q] terms IH]; intros total; cbn [total_excess].
  - intros H; injection H as <-. split; [lia|]. split; [|intros t q []].
    split; [intros _ t q c [] | reflexivity].
  - destruct (term_count self content t) as [c|] eqn:E; [|discriminate].
    destruct (total_excess self content terms) as [e|]; [|discriminate].
    intros H; injection H as <-.
    destruct (IH e eq_refl) as (P & Z0 & N).
    pose proof (term_count_nonneg self content t c E) as Pc.
    pose proof (count_beyond_nonneg c q) as Pb.
    split; [lia|]. split; [split|].
    + intros H0 t' q' c' [He|Hin] Hc'.
      * injection He as <- <-. rewrite E in Hc'. injection Hc' as <-.
        unfold count_beyond in *. lia.
      * assert (He0 : e = 0%Z) by (unfold count_beyond in *; lia).
        exact (proj1 Z0 He0 t' q' c' Hin Hc').
    + intros H.
      assert (Hcq : (c <= q)%Z) by (apply (H t q c); [now left | exact E]).
      assert (He0 : e = 0%Z).
      { apply (proj2 Z0). intros t' q' c' Hin. apply H. now right. }
      unfold count_beyond. lia.
    + intros t' q' [He|Hin].
      * injection He as <- <-. unfold count_beyond in *. lia.
      * specialize (N t' q' Hin). lia.
Qed.

Lemma check_terms_total (self : NightCrawler) (url content : str) (st st' : process)
    (total : Z) :
  check_terms self url content st = Ok (total, st') ->
  total_excess self content (unwanted_terms self) = Some total.
Proof.
  unfold check_terms. intros H.
  destruct (check_terms_cases self url content (unwanted_terms self) 0%Z st)
    as [(e & st1 & Ee & Ef & _) | (_ & Ef)]; rewrite Ef in H; [|discriminate].
  injection H as <- _. exact Ee.
Qed.

(** X5. The score of a page is never negative, and it is zero exactly
    when every configured term occurs at most as often as its threshold
    allows: a page is clear only if all terms are within bounds. *)
Theorem score_zero_iff_within_thresholds (self : NightCrawler) (url content : str)
    (st st' : process) (total : Z) :
  check_terms self url content st = Ok (total, st') ->
  (0 <= total)%Z
  /\ (total = 0%Z <->
      forall t q c, In (t, q) (unwanted_terms self) ->
                    term_count self content t = Some c -> (c <= q)%Z).
Proof.
  intros H. apply check_terms_total in H.
  destruct (total_excess_zero self content (unwanted_terms self) total H) as (P & Z0 & _).
  now split.
Qed.

(** X6. A negative threshold is taken as it is: with a term whose
    threshold is [q < 0] every scored page gets a score of at least [-q],
    so no page is clear, whatever its content. *)
Theorem negative_threshold_flags_every_page (self : NightCrawler) (url content t : str)
    (q : Z) (st st' : process) (total : Z) :
  In (t, q) (unwanted_terms self) ->
  (q < 0)%Z ->
  check_terms self url content st = Ok (total, st') ->
  (0 < - q <= total)%Z.
Proof.
  intros Hin Hq H. apply check_terms_total in H.
  destruct (total_excess_zero self content (unwanted_terms self) total H) as (_ & _ & N).
  specialize (N t q Hin). lia.
Qed.

(** ** Traversal Engine: what a crawl does *)

Lemma for_each_Ok {A S} (f : A -> S -> res S) (R : S -> S -> Prop) (l : list A) :
  (forall st, R st st) ->
  (forall a b c, R a b -> R b c -> R a c) ->
  (forall x a b, In x l -> f x a = Ok b -> R a b) ->
  forall st st', for_each f l st = Ok st' -> R st st'.
Proof.
  intros Hrefl Htrans. induction l as [|x l IH]; intros Hf st st'; cbn [for_each].
  - intros H; injection H as <-. apply Hrefl.
  - destruct (f x st) as [st1| |] eqn:E; cbn [bind]; try discriminate.
    intros H. apply (Htrans st st1 st').
    + apply (Hf x); [now left | exact E].
    + apply IH; [|exact H]. intros y a b Hy. apply Hf. now right.
Qed.

Lemma trace_refl (P : str -> Prop) (st : process) : trace P st st.
Proof. exists [], []. rewrite app_nil_r. repeat split; constructor. Qed.

Lemma trace_trans (P : str -> Prop) (a b c : process) :
  trace P a b -> trace P b c -> trace P a c.
Proof.
  intros (n1 & s1 & A1 & B1 & C1 & D1) (n2 & s2 & A2 & B2 & C2 & D2).
  exists (n1 ++ n2), (s2 ++ s1). split; [now rewrite A2, A1, app_assoc|].
  split; [now rewrite B2, B1, app_assoc|]. split.
  - unfold keys in *. rewrite map_app, C1, C2, filter_app, map_app, rev_app_distr.
    reflexivity.
  - apply Forall_app. now split.
Qed.

Lemma trace_weaken (P Q : str -> Prop) (a b : process) :
  (forall v, P v -> Q v) -> trace P a b -> trace Q a b.
Proof.
  intros H (n & s & A & B & C & D). exists n, s. repeat split; try assumption.
  eapply Forall_impl; [|exact D]. intros r. apply H.
Qed.

Section Traversal.

Variable http_get : list (str * bool) -> str -> option str.
Variable list_of_set : list str -> list str.
Variable self : NightCrawler.

Local Abbreviation visit fuel := (check_page http_get list_of_set fuel self).

(** The three ways a call that returns has gone. *)
Lemma check_page_step (fuel : nat) (url : str) (st st' : process) :
  visit (S fuel) url st = Ok st' ->
  let u := absolute self url in
  (In u (keys (URLS_CHECKED st))
   /\ URLS_CHECKED st' = URLS_CHECKED st /\ requests st' = requests st)
  \/ (~ In u (keys (URLS_CHECKED st))
      /\ http_get (requests st) u = None
      /\ URLS_CHECKED st' = URLS_CHECKED st /\ requests st' = (u, false) :: requests st)
  \/ (~ In u (keys (URLS_CHECKED st))
      /\ exists content total st1,
           http_get (requests st) u = Some content
           /\ total_excess self content (unwanted_terms self) = Some total
           /\ URLS_CHECKED st1 = URLS_CHECKED st ++ [(u, total)]
           /\ requests st1 = (u, true) :: requests st
           /\ for_each (visit fuel)
                (filter (is_useful_link self)
                   (list_of_set (map strip (href_values not_newline content)))) st1
              = Ok st').
Proof.
  intros H u. destruct (dict_mem u (URLS_CHECKED st)) eqn:M.
  - apply dict_mem_In in M. left. rewrite check_page_visited in H by exact M.
    injection H as <-. now rewrite !write_URLS_CHECKED, !write_requests.
  - apply dict_mem_false in M. right.
    destruct (http_get (requests st) u) as [content|] eqn:G.
    + right. split; [exact M|].
      rewrite (check_page_fetched _ _ _ fuel url st content M G) in H. fold u in H.
      destruct (check_terms self u content _) as [[total st0]| |] eqn:T;
        cbn [bind] in H; try discriminate.
      rewrite child_links_eq in H. cbn [bind fst snd] in H.
      exists content, total, (set_checked u total st0).
      pose proof (check_terms_total _ _ _ _ _ _ T) as Te.
      apply check_terms_frame in T as (_ & T1 & T2).
      cbn [URLS_CHECKED requests log_request] in T1, T2.
      rewrite !write_URLS_CHECKED in T1. rewrite !write_requests in T2.
      cbn [set_checked URLS_CHECKED requests]. rewrite T1, T2.
      rewrite (dict_set_new u total (URLS_CHECKED st) M). auto.
    + left. rewrite (check_page_failed _ _ _ fuel url st M G) in H. injection H as <-.
      rewrite !write_URLS_CHECKED, !write_requests. cbn [log_request URLS_CHECKED requests].
      rewrite !write_URLS_CHECKED, !write_requests. auto.
Qed.

Lemma In_child_links (l content : str) :
  In l (filter (is_useful_link self) (list_of_set (map strip (href_values not_newline content))))
  -> is_useful_link self l = true.
Proof. intros H. now apply filter_In in H. Qed.

Lemma check_page_trace (fuel : nat) : forall url st st',
  visit fuel url st = Ok st' ->
  trace (fun v => v = absolute self url \/ linked self v) st st'.
Proof.
  induction fuel as [|fuel IH]; intros url st st' H; [discriminate|].
  apply check_page_step in H. cbv zeta in H.
  destruct H as [(M & A & B) | [(M & G & A & B) | (M & content & total & st1 & G & T & A & B & F)]].
  - exists [], []. rewrite app_nil_r.
    split; [exact A|]. split; [exact B|]. split; [reflexivity | constructor].
  - exists [], [(absolute self url, false)]. rewrite app_nil_r.
    split; [exact A|]. split; [exact B|]. split; [reflexivity|].
    constructor; [now left | constructor].
  - assert (K : trace (linked self) st1 st').
    { revert F. apply for_each_Ok; [apply trace_refl | apply trace_trans |].
      intros l a b Hl E. apply In_child_links in Hl. apply IH in E.
      revert E. apply trace_weaken. intros v [->|Hv]; [now exists l | exact Hv]. }
    destruct K as (n & s & A1 & B1 & C1 & D1).
    exists ((absolute self url, total) :: n), (s ++ [(absolute self url, true)]).
    split; [now rewrite A1, A, <- app_assoc|].
    split; [now rewrite B1, B, <- app_assoc|]. split.
    + cbn [keys map fst]. fold (keys n). rewrite C1, filter_app, map_app, rev_app_distr.
      reflexivity.
    + apply Forall_app. split.
      * eapply Forall_impl; [|exact D1]. intros r Hr. now right.
      * constructor; [now left | constructor].
Qed.

(** X7. A call that returns only appends to the visited set: the entries
    already there keep their place and their score, and the keys it adds
    are exactly the URLs whose request succeeded during the call, in the
    order in which they were fetched. *)
Theorem check_page_appends_fetched (fuel : nat) (url : str) (st st' : process) :
  visit fuel url st = Ok st' ->
  exists new sent,
    URLS_CHECKED st' = URLS_CHECKED st ++ new
    /\ requests st' = sent ++ requests st
    /\ keys new = rev (map fst (filter snd sent))
    /\ length new = length (filter snd sent).
Proof.
  intros H. apply check_page_trace in H as (n & s & A & B & C & _).
  exists n, s. repeat split; try assumption.
  apply (f_equal (@length str)) in C.
  unfold keys in C. now rewrite length_rev, !length_map in C.
Qed.

End Traversal.

Lemma absolute_contains_base (self : NightCrawler) (l : str) :
  contains (base_domain self) l = true \/ startswith (lit "/") l = true ->
  is_substring (base_domain self) (absolute self l).
Proof.
  unfold absolute. destruct (startswith (lit "/") l) eqn:E.
  - intros _. exists [], l. reflexivity.
  - intros [H|H]; [now apply contains_substring | discriminate].
Qed.

Lemma linked_contains_base (self : NightCrawler) (v : str) :
  linked self v -> is_substring (base_domain self) v.
Proof.
  intros (l & U & ->). apply absolute_contains_base.
  unfold is_useful_link in U.
  destruct (contains (base_domain self) l); [now left|].
  destruct (startswith (lit "/") l); [now right | discriminate].
Qed.

Lemma suffix_behind_slash (e b l : str) :
  ~ In "/"%char e -> startswith (lit "/") l = true ->
  is_suffix e (b ++ l) -> is_suffix e l.
Proof.
  intros He Hl [t Ht].
  apply startswith_prefix in Hl as [l' ->].
  apply app_eq_app in Ht as [m [[_ E] | [_ E]]].
  - exfalso. apply He. rewrite E. apply in_or_app. right. now left.
  - now exists m.
Qed.

Lemma linked_no_ignored_filetype (self : NightCrawler) (v ext : str) :
  linked self v -> In ext FILETYPES_TO_IGNORE -> ~ is_suffix ext v.
Proof.
  intros (l & U & ->) Hext Hs.
  assert (N : existsb (fun filetype => endswith filetype l) FILETYPES_TO_IGNORE = false).
  { unfold is_useful_link in U.
    destruct (negb (contains (base_domain self) l) && negb (startswith (lit "/") l));
      [discriminate|].
    now destruct (existsb _ FILETYPES_TO_IGNORE). }
  assert (Hl : is_suffix ext l).
  { unfold absolute in Hs. destruct (startswith (lit "/") l) eqn:E; [|exact Hs].
    apply (suffix_behind_slash ext (base_domain self) l); [|exact E | exact Hs].
    cbn [FILETYPES_TO_IGNORE In] in Hext.
    destruct Hext as [<-|[<-|[<-|[<-|[<-|[<-|[]]]]]]];
      cbn; intuition discriminate. }
  apply endswith_suffix in Hl.
  assert (T : existsb (fun filetype => endswith filetype l) FILETYPES_TO_IGNORE = true)
    by (apply existsb_exists; now exists ext).
  congruence.
Qed.

(** X8. Every URL a crawl requests contains the base domain, and apart
    from the seed none ends with an ignored file type: the crawler only
    goes to the seed and to links that [is_useful_link] accepts. *)
Theorem crawl_requests_stay_on_site
    (http_get : list (str * bool) -> str -> option str)
    (list_of_set : list str -> list str) (self : NightCrawler) (fuel : nat)
    (st st' : process) :
  crawl http_get list_of_set fuel self st = Ok st' ->
  exists sent,
    requests st' = sent ++ requests st
    /\ forall v ok, In (v, ok) sent ->
         is_substring (base_domain self) v
         /\ (v <> absolute self (base_domain self) ->
             forall ext, In ext FILETYPES_TO_IGNORE -> ~ is_suffix ext v).
Proof.
  unfold crawl. intros H.
  apply (check_page_trace http_get list_of_set self fuel) in H as (n & s & _ & B & _ & D).
  exists s. split; [exact B|]. intros v ok Hin.
  rewrite Forall_forall in D. specialize (D (v, ok) Hin). cbn [fst] in D.
  destruct D as [->|L].
  - split; [|intros N; now contradiction N].
    unfold absolute. destruct (startswith (lit "/") (base_domain self)).
    + exists [], (base_domain self). reflexivity.
    + exists [], []. now rewrite app_nil_r.
  - split; [now apply linked_contains_base|].
    intros _ ext Hext. now apply (linked_no_ignored_filetype self).
Qed.

(** ** Traversal Engine: when a crawl ends *)







Section Termination.

Variable http_get : list (str * bool) -> str -> option str.
Variable list_of_set : list str -> list str.
Variable self : NightCrawler.

(** The pages that can be fetched at all are among those of [site]. *)
Variable site : list str.
Hypothesis site_covers : forall log u content, http_get log u = Some content -> In u site.

Hypothesis terms_literal :
  Forall (fun item => all_literal (fst item) = true) (unwanted_terms self).

Local Abbreviation visit fuel := (check_page http_get list_of_set fuel self).


End Termination.

(** ** Verbosity *)

Lemma write_same_data (self : NightCrawler) (m : message) (level : Z) (st : process) :
  same_data (write self m level st) st.
Proof. split; [apply write_URLS_CHECKED | apply write_requests]. Qed.

Lemma term_count_config (a b : NightCrawler) (content t : str) :
  use_link_lookup a = use_link_lookup b -> term_count a content t = term_count b content t.
Proof. unfold term_count. now intros ->. Qed.

Lemma total_excess_config (a b : NightCrawler) (content : str) (terms : list (str * Z)) :
  use_link_lookup a = use_link_lookup b ->
  total_excess a content terms = total_excess b content terms.
Proof.
  intros H. induction terms as [|[t q] terms IH]; [reflexivity|].
  cbn [total_excess]. now rewrite IH, (term_count_config a b content t H).
Qed.

Lemma check_terms_config (a b : NightCrawler) (url content : str) (sa sb : process) :
  same_config a b -> same_data sa sb ->
  (exists total s1 s2,
      check_terms a url content sa = Ok (total, s1)
      /\ check_terms b url content sb = Ok (total, s2)
      /\ same_data s1 s2)
  \/ (check_terms a url content sa = BadPattern
      /\ check_terms b url content sb = BadPattern).
Proof.
  intros (_ & Ht & Hm) [D1 D2]. unfold check_terms. rewrite <- Ht.
  destruct (check_terms_cases a url content (unwanted_terms a) 0%Z sa)
    as [(e1 & s1 & E1 & F1 & U1 & R1) | (E1 & F1)];
    destruct (check_terms_cases b url content (unwanted_terms a) 0%Z sb)
      as [(e2 & s2 & E2 & F2 & U2 & R2) | (E2 & F2)];
    rewrite (total_excess_config a b content _ Hm) in E1; rewrite E1 in E2;
      try discriminate.
  - injection E2 as <-. left. exists (0 + e1)%Z, s1, s2. rewrite F1, F2.
    repeat split; congruence.
  - right. now rewrite F1, F2.
Qed.

Lemma is_useful_link_config (a b : NightCrawler) (l : str) :
  base_domain a = base_domain b -> is_useful_link a l = is_useful_link b l.
Proof. unfold is_useful_link. now intros ->. Qed.

Section Verbosity.

Variable http_get : list (str * bool) -> str -> option str.
Variable list_of_set : list str -> list str.

(** X10. The verbosity only decides what is printed: two crawlers that
    differ in nothing else, started on the same visited set and request
    log, send the same requests and end with the same visited set, or end
    abnormally in the same way. *)
Theorem verbosity_does_not_steer (a b : NightCrawler) (fuel : nat) :
  same_config a b ->
  forall url sa sb,
    same_data sa sb ->
    same_outcome (check_page http_get list_of_set fuel a url sa)
                 (check_page http_get list_of_set fuel b url sb).
Proof.
  intros C. pose proof C as (Hb & Ht & Hm).
  induction fuel as [|fuel IH]; intros url sa sb D; [exact I|].
  pose proof D as [D1 D2].
  assert (Ea : absolute b url = absolute a url) by (unfold absolute; now rewrite Hb).
  cbn [check_page]. rewrite Ea, <- D1. set (u := absolute a url).
  destruct (dict_mem u (URLS_CHECKED sa)).
  - split; rewrite ?write_URLS_CHECKED, ?write_requests; congruence.
  - rewrite !write_requests, <- D2.
    destruct (http_get (requests sa) u) as [content|].
    + assert (L : same_data
                    (log_request u true (write a (MsgInit u) 2 (write a MsgRule 2 sa)))
                    (log_request u true (write b (MsgInit u) 2 (write b MsgRule 2 sb)))).
      { split; cbn [log_request URLS_CHECKED requests];
          rewrite ?write_URLS_CHECKED, ?write_requests; congruence. }
      destruct (check_terms_config a b u content _ _ C L)
        as [(total & s1 & s2 & E1 & E2 & [S1 S2]) | (E1 & E2)].
      * rewrite E1, E2. cbn [bind]. rewrite !child_links_eq. cbn [bind].
        assert (El : filter (is_useful_link b)
                       (list_of_set (map strip (href_values not_newline content)))
                     = filter (is_useful_link a)
                         (list_of_set (map strip (href_values not_newline content)))).
        { apply filter_ext. intros l. symmetry. now apply is_useful_link_config. }
        rewrite El.
        assert (S0 : same_data (set_checked u total s1) (set_checked u total s2)).
        { split; cbn [set_checked URLS_CHECKED requests]; congruence. }
        revert S0. generalize (set_checked u total s1) (set_checked u total s2).
        generalize (filter (is_useful_link a)
                      (list_of_set (map strip (href_values not_newline content)))).
        induction l as [|x l IHl]; intros p q S0; cbn [for_each]; [exact S0|].
        specialize (IH x p q S0).
        destruct (check_page http_get list_of_set fuel a x p) as [p1| |],
                 (check_page http_get list_of_set fuel b x q) as [q1| |];
          cbn [same_outcome] in IH; try contradiction; cbn [bind]; try exact I.
        now apply IHl.
      * rewrite E1, E2. exact I.
    + split; rewrite ?write_URLS_CHECKED, ?write_requests;
        cbn [log_request URLS_CHECKED requests];
        rewrite ?write_URLS_CHECKED, ?write_requests; congruence.
Qed.

Lemma stdout_write_quiet (self : NightCrawler) (m : message) (level : Z) (st : process) :
  (verbose_level self < level)%Z -> stdout (write self m level st) = stdout st.
Proof.
  intros H. rewrite stdout_write.
  destruct (level <=? verbose_level self)%Z eqn:E; [apply Z.leb_le in E; lia|].
  apply app_nil_r.
Qed.

Lemma stdout_fold_write_quiet {A} (self : NightCrawler) (f : A -> message) (level : Z)
    (l : list A) (st : process) :
  (verbose_level self < level)%Z ->
  stdout (fold_left (fun st x => write self (f x) level st) l st) = stdout st.
Proof.
  intros H. rewrite stdout_fold_write.
  destruct (level <=? verbose_level self)%Z eqn:E; [apply Z.leb_le in E; lia|].
  apply app_nil_r.
Qed.

Lemma check_term_quiet (self : NightCrawler) (url content : str) (item : str * Z)
    (acc acc' : Z * process) :
  (verbose_level self < 1)%Z ->
  check_term self url content item acc = Ok acc' ->
  stdout (snd acc') = stdout (snd acc).
Proof.
  intros Q. destruct item as [t q], acc as [total st]. unfold check_term.
  destruct (use_link_lookup self).
  - destruct (re_findall (link_pattern t) content) as [occ|]; cbn [of_option bind];
      [|discriminate].
    destruct (count_beyond (Z.of_nat (length occ)) q =? 0)%Z;
      intros H; injection H as <-; cbn [snd]; [reflexivity|].
    now rewrite stdout_fold_write_quiet, stdout_write_quiet.
  - destruct (re_finditer t content) as [found|]; cbn [of_option bind]; [|discriminate].
    destruct (count_beyond (Z.of_nat (length (map Re.m_start found))) q =? 0)%Z;
      intros H; injection H as <-; cbn [snd]; [reflexivity|].
    now rewrite stdout_fold_write_quiet, stdout_write_quiet.
Qed.

(** X11. With a verbosity below 1 the crawler prints nothing at all:
    neither the calls that return nor the summary add a line. *)
Theorem silent_below_one (self : NightCrawler) :
  (verbose_level self < 1)%Z ->
  (forall fuel url st st',
      check_page http_get list_of_set fuel self url st = Ok st' -> stdout st' = stdout st)
  /\ (forall st, stdout (print_summary self st) = stdout st).
Proof.
  intros Q. split.
  - induction fuel as [|fuel IH]; intros url st st'; [discriminate|].
    cbn [check_page]. set (u := absolute self url).
    destruct (dict_mem u (URLS_CHECKED st)).
    + intros H; injection H as <-. rewrite !stdout_write_quiet by lia. reflexivity.
    + rewrite !write_requests.
      destruct (http_get (requests st) u) as [content|].
      * destruct (check_terms self u content _) as [[total st0]| |] eqn:T;
          cbn [bind]; try discriminate.
        rewrite child_links_eq. cbn [bind].
        assert (T0 : stdout st0 = stdout st).
        { unfold check_terms in T.
          apply (for_each_Ok (check_term self u content)
                   (fun x y => stdout (snd y) = stdout (snd x))) in T.
          - cbn [snd log_request stdout] in T. rewrite T.
            rewrite !stdout_write_quiet by lia. reflexivity.
          - reflexivity.
          - intros x y z H1 H2. congruence.
          - intros item x y _ H. now apply (check_term_quiet self u content item). }
        intros H.
        apply (for_each_Ok (check_page http_get list_of_set fuel self)
                 (fun x y => stdout y = stdout x)) in H.
        -- rewrite H. cbn [set_checked stdout]. exact T0.
        -- reflexivity.
        -- intros x y z H1 H2. congruence.
        -- intros l x y _ E. now apply IH in E.
      * intros H; injection H as <-. rewrite stdout_write_quiet by lia.
        cbn [log_request stdout]. rewrite !stdout_write_quiet by lia. reflexivity.
  - intros st. unfold print_summary.
    rewrite !stdout_write_quiet, !stdout_fold_write_quiet, !stdout_write_quiet by lia.
    rewrite stdout_fold_write_quiet by lia. now rewrite stdout_write_quiet by lia.
Qed.

End Verbosity.

(** ** Whole runs *)

Lemma print_summary_same_data (self : NightCrawler) (st : process) :
  same_data (print_summary self st) st.
Proof.
  unfold print_summary. split.
  - rewrite !write_URLS_CHECKED.
    destruct (fold_write_frame self (fun e : str * Z => MsgUrlQty (fst e) (snd e)) 1
                (pages_with_terms (URLS_CHECKED st))
                (write self MsgPagesWithTerms 1
                   (fold_left (fun st url => write self (MsgClearUrl url) 1 st)
                      (keys (pages_clear (URLS_CHECKED st)))
                      (write self MsgPagesClear 1 st)))) as [H _].
    rewrite H, write_URLS_CHECKED.
    destruct (fold_write_frame self MsgClearUrl 1 (keys (pages_clear (URLS_CHECKED st)))
                (write self MsgPagesClear 1 st)) as [H' _].
    now rewrite H', write_URLS_CHECKED.
  - rewrite !write_requests.
    destruct (fold_write_frame self (fun e : str * Z => MsgUrlQty (fst e) (snd e)) 1
                (pages_with_terms (URLS_CHECKED st))
                (write self MsgPagesWithTerms 1
                   (fold_left (fun st url => write self (MsgClearUrl url) 1 st)
                      (keys (pages_clear (URLS_CHECKED st)))
                      (write self MsgPagesClear 1 st)))) as [_ H].
    rewrite H, write_requests.
    destruct (fold_write_frame self MsgClearUrl 1 (keys (pages_clear (URLS_CHECKED st)))
                (write self MsgPagesClear 1 st)) as [_ H'].
    now rewrite H', write_requests.
Qed.

Lemma print_summary_stdout (self : NightCrawler) (st : process) :
  stdout (print_summary self st)
  = stdout st ++ (if (1 <=? verbose_level self)%Z then summary_lines (URLS_CHECKED st) else []).
Proof.
  unfold print_summary.
  rewrite !stdout_write, stdout_fold_write, stdout_write, stdout_fold_write, stdout_write.
  unfold summary_lines.
  destruct (1 <=? verbose_level self)%Z.
  - rewrite <- !app_assoc. reflexivity.
  - now rewrite !app_nil_r.
Qed.

Lemma partition_lengths (d : dict) :
  Forall (fun e => (0 <= snd e)%Z) d ->
  length (pages_clear d) + length (pages_with_terms d) = length d.
Proof.
  unfold pages_clear, pages_with_terms.
  induction 1 as [|[k v] d Hv P IH]; [reflexivity|].
  cbn [filter snd length] in *.
  pose proof (Z.eqb_spec v 0) as S0. pose proof (Z.gtb_spec v 0) as S1.
  destruct (v =? 0)%Z, (v >? 0)%Z; inversion S0; inversion S1; cbn [length]; lia.
Qed.

Section WholeRun.

Variable http_get : list (str * bool) -> str -> option str.
Variable list_of_set : list str -> list str.
Variable int : str -> option Z.

Lemma parse_terms_raises (d : str) (specs : list str) :
  In d specs -> (forall u, parse_term int d u = None) ->
  forall u, parse_terms int specs u = None.
Proof.
  intros Hin Hd. induction specs as [|s specs IH]; [contradiction|].
  intros u. cbn [parse_terms]. destruct Hin as [->|Hin].
  - now rewrite Hd.
  - destruct (parse_term int s u); [now apply IH | reflexivity].
Qed.

(** X3. A term text with one colon whose second part [int] does not take
    (a URL with its scheme, say) ends the script with [ValueError] while
    the terms are built: no crawler is created and no page is requested,
    whatever the other arguments are. *)
Theorem main_raises_on_bad_threshold (fuel : nat) (args : arguments) (term qty : str) :
  In (term ++ colon :: qty) (arg_unwanted_terms args) ->
  ~ In colon term -> ~ In colon qty ->
  int qty = None ->
  main http_get list_of_set int fuel args = None.
Proof.
  intros Hin Ht Hq Hn. unfold main.
  rewrite (parse_terms_raises (term ++ colon :: qty) (arg_unwanted_terms args) Hin);
    [reflexivity|].
  intros u. rewrite (parse_term_threshold_eq int term qty u Ht Hq), Hn. reflexivity.
Qed.

(** X12. When the script runs to its end with a verbosity of at least 1,
    the last lines are the totals, and they agree with what was done: the
    number of pages checked is the number of requests that succeeded, and
    it is the sum of the pages cleared and the pages with terms. *)
Theorem main_totals (fuel : nat) (args : arguments) (st : process) :
  main http_get list_of_set int fuel args = Some (Ok st) ->
  (1 <= arg_verbose_level args)%Z ->
  exists out n c f,
    stdout st = out ++ [MsgTotals; MsgPagesChecked n; MsgPagesCleared c; MsgPagesFlagged f]
    /\ n = length (URLS_CHECKED st)
    /\ n = length (filter snd (requests st))
    /\ n = c + f.
Proof.
  unfold main.
  destruct (parse_terms int (arg_unwanted_terms args) []) as [terms|]; [|discriminate].
  set (nc := __init__ (arg_base_domain args) terms (arg_use_link_lookup args)
                      (arg_verbose_level args)).
  destruct (crawl http_get list_of_set fuel nc _) as [st1| |] eqn:E; cbn [bind];
    try discriminate.
  intros H V. injection H as <-.
  destruct (print_summary_same_data nc st1) as [D1 D2].
  rewrite D1, D2, print_summary_stdout.
  change (verbose_level nc) with (arg_verbose_level args).
  apply Z.leb_le in V. rewrite V.
  unfold crawl in E.
  destruct (check_page_inv _ _ _ _ _ _ _ crawl_inv_empty E) as [[_ P _ _] _].
  apply check_page_trace in E as (n & s & A & B & C & _).
  cbn [URLS_CHECKED requests app] in A, B. rewrite app_nil_r in B.
  unfold summary_lines.
  exists (stdout st1 ++ MsgPagesClear :: map MsgClearUrl (keys (pages_clear (URLS_CHECKED st1)))
          ++ MsgPagesWithTerms
             :: map (fun e => MsgUrlQty (fst e) (snd e)) (pages_with_terms (URLS_CHECKED st1))),
    (length (URLS_CHECKED st1)), (length (pages_clear (URLS_CHECKED st1))),
    (length (pages_with_terms (URLS_CHECKED st1))).
  split; [|split; [reflexivity | split]].
  - rewrite <- !app_assoc. cbn [app]. rewrite <- !app_assoc. reflexivity.
  - rewrite A, B. apply (f_equal (@length str)) in C.
    unfold keys in C. now rewrite length_rev, !length_map in C.
  - symmetry. now apply partition_lengths.
Qed.

(** X13. When the seed cannot be fetched the script still runs to its
    end: the visited set stays empty, the one request is logged as failed,
    and the summary reports zero pages. *)
Theorem main_with_unreachable_seed (fuel : nat) (args : arguments) (terms : dict) :
  let base := arg_base_domain args in
  let u := if startswith (lit "/") base then base ++ base else base in
  parse_terms int (arg_unwanted_terms args) [] = Some terms ->
  http_get [] u = None ->
  exists st,
    main http_get list_of_set int (S fuel) args = Some (Ok st)
    /\ URLS_CHECKED st = []
    /\ requests st = [(u, false)]
    /\ stdout st
       = (if (2 <=? arg_verbose_level args)%Z then [MsgRule; MsgInit u] else [])
         ++ (if (1 <=? arg_verbose_level args)%Z
             then [MsgError u; MsgPagesClear; MsgPagesWithTerms; MsgTotals;
                   MsgPagesChecked 0; MsgPagesCleared 0; MsgPagesFlagged 0]
             else []).
Proof.
  intros base u Hp Hg. unfold main. rewrite Hp.
  set (nc := __init__ (arg_base_domain args) terms (arg_use_link_lookup args)
                      (arg_verbose_level args)).
  unfold crawl.
  assert (Hu : absolute nc (base_domain nc) = u) by reflexivity.
  rewrite (check_page_failed http_get list_of_set nc fuel (base_domain nc)
             {| URLS_CHECKED := []; requests := []; stdout := [] |});
    [| rewrite Hu; intros [] | rewrite Hu; exact Hg].
  rewrite Hu. cbn [bind]. eexists. split; [reflexivity|].
  destruct (print_summary_same_data nc
              (write nc (MsgError u) 1
                 (log_request u false
                    (write nc (MsgInit u) 2
                       (write nc MsgRule 2
                          {| URLS_CHECKED := []; requests := []; stdout := [] |})))))
    as [D1 D2].
  rewrite D1, D2, print_summary_stdout.
  rewrite !write_URLS_CHECKED, !write_requests, !stdout_write.
  cbn [log_request URLS_CHECKED requests stdout].
  rewrite !write_URLS_CHECKED, !write_requests, !stdout_write.
  cbn [URLS_CHECKED requests stdout app].
  change (verbose_level nc) with (arg_verbose_level args).
  split; [reflexivity|]. split; [reflexivity|].
  destruct (2 <=? arg_verbose_level args)%Z, (1 <=? arg_verbose_level args)%Z; reflexivity.
Qed.

End WholeRun.

(** ** Traversal Engine: the shape of child links *)

Lemma first_stop_run (body : ascii -> bool) (ts : list ascii) : forall s k,
  first_stop body ts s = Some k ->
  Forall (fun c => is_stop ts c = false /\ body c = true) (firstn k s).
Proof.
  induction s as [|c s IH]; intros k; cbn [first_stop]; [discriminate|].
  destruct (is_stop ts c) eqn:Es; [intros H; injection H as <-; constructor|].
  destruct (body c) eqn:Eb; [|discriminate].
  destruct (first_stop body ts s) as [j|]; [|discriminate].
  intros H; injection H as <-. cbn [firstn]. constructor; [now split | now apply IH].
Qed.

Lemma delimited_run (body : ascii -> bool) (p : str) (ts : list ascii) : forall s skip r,
  In r (delimited body p [] ts skip s) ->
  Forall (fun c => is_stop ts c = false /\ body c = true) r.
Proof.
  induction s as [|x s IH]; intros skip r; destruct skip as [|n]; cbn [delimited].
  - destruct (if startswith (p ++ []) [] then _ else None) as [k|] eqn:E; [|intros []].
    intros [<-|[]]. rewrite skipn_nil, firstn_nil. constructor.
  - intros [].
  - destruct (if startswith (p ++ []) (x :: s) then _ else None) as [k|] eqn:E; [|apply IH].
    intros [<-|H]; [|now apply IH in H].
    destruct (startswith (p ++ []) (x :: s)); [|discriminate].
    cbn [length Nat.add] in *. rewrite Nat.add_0_r in E.
    now apply first_stop_run.
  - apply IH.
Qed.

Lemma In_lstrip (c : ascii) (s : str) : In c (lstrip s) -> In c s.
Proof.
  induction s as [|x s IH]; [auto|]. cbn [lstrip].
  destruct (is_space x); [intros H; right; now apply IH | auto].
Qed.

Lemma In_strip (c : ascii) (s : str) : In c (strip s) -> In c s.
Proof.
  unfold strip. intros H. apply in_rev in H. apply In_lstrip in H.
  apply in_rev in H. now apply In_lstrip.
Qed.

Lemma lstrip_head (s : str) (c : ascii) (r : str) :
  lstrip s = c :: r -> is_space c = false.
Proof.
  induction s as [|x s IH]; [discriminate|]. cbn [lstrip].
  destruct (is_space x) eqn:E; [exact IH|]. intros H; injection H as <- _. exact E.
Qed.

Lemma lstrip_suffix (s : str) : exists pre, s = pre ++ lstrip s.
Proof.
  induction s as [|x s [pre IH]]; [now exists []|]. cbn [lstrip].
  destruct (is_space x); [|now exists []].
  exists (x :: pre). cbn [app]. now rewrite <- IH.
Qed.

Lemma strip_ends (s : str) :
  (forall c r, strip s = c :: r -> is_space c = false)
  /\ (forall c r, strip s = r ++ [c] -> is_space c = false).
Proof.
  unfold strip. split; intros c r H.
  - apply (f_equal (@rev ascii)) in H. rewrite rev_involutive in H. cbn [rev] in H.
    destruct (lstrip_suffix (rev (lstrip s))) as [pre E]. rewrite H in E.
    apply (f_equal (@rev ascii)) in E.
    rewrite rev_involutive, !rev_app_distr, rev_involutive in E. cbn [rev app] in E.
    now apply lstrip_head in E.
  - apply (f_equal (@rev ascii)) in H.
    rewrite rev_involutive, rev_app_distr in H. cbn [rev app] in H.
    now apply lstrip_head in H.
Qed.

Section LinkShape.

Variable list_of_set : list str -> list str.

(** A set yields only elements that were put into it. *)
Hypothesis list_of_set_sound : forall l x, In x (list_of_set l) -> In x l.

(** X14. No child link the crawler follows contains a [#] or a line
    break, and none starts or ends with white space: fragments are cut off
    before the links are compared, so links to several fragments of one
    page lead to one visit. *)
Theorem child_links_shape (self : NightCrawler) (content : str) (links : list str) :
  child_links list_of_set self content = Ok links ->
  forall l, In l links ->
    ~ In hash l /\ ~ In newline l
    /\ (forall c r, l = c :: r -> is_space c = false)
    /\ (forall c r, l = r ++ [c] -> is_space c = false).
Proof.
  rewrite child_links_eq. intros H; injection H as <-. intros l Hl.
  apply filter_In in Hl as [Hl _]. apply list_of_set_sound in Hl.
  apply in_map_iff in Hl as (v & <- & Hv).
  assert (R : Forall (fun c => ascii_eqb hash c = false /\ not_newline c = true) v).
  { unfold href_values in Hv. apply in_app_or in Hv as [Hv|Hv];
      apply delimited_run in Hv; (eapply Forall_impl; [|exact Hv]);
      intros c [Hs Hb]; (split; [|exact Hb]);
      cbn [is_stop existsb] in Hs; rewrite !orb_false_iff in Hs; tauto. }
  rewrite Forall_forall in R.
  split; [|split; [|apply strip_ends]].
  - intros Hh. apply In_strip in Hh. destruct (R hash Hh) as [E _].
    now rewrite ascii_eqb_refl in E.
  - intros Hn. apply In_strip in Hn. destruct (R newline Hn) as [_ E].
    unfold not_newline in E. now rewrite ascii_eqb_refl in E.
Qed.

End LinkShape.

(** ** Further runs on the small site *)


Lemma dedup_sound : forall l x, In x (dedup l) -> In x l.
Proof. intros l x. apply dedup_spec. Qed.

Lemma parse_term_whole_witness :
  parse_term demo_int (lit "bonus") [] = Some [(lit "bonus", 0%Z)]
  /\ parse_term demo_int (lit "a:b:c") [] = Some [(lit "a:b:c", 0%Z)].
Proof.
  split.
  - apply (parse_term_whole demo_int (lit "bonus") []); [|reflexivity].
    vm_compute. discriminate.
  - apply (parse_term_whole demo_int (lit "a:b:c") []); [|reflexivity].
    vm_compute. discriminate.
Defined.

Lemma parse_term_threshold_witness :
  parse_term demo_int (lit "promotion" ++ colon :: lit "12") []
  = Some [(lit "promotion", 12%Z)].
Proof.
  apply (parse_term_threshold demo_int (lit "promotion") (lit "12") []);
    cbn; intuition discriminate.
Defined.

Lemma main_raises_on_bad_threshold_witness :
  main demo_web dedup demo_int 3 bad_arguments = None.
Proof.
  apply (main_raises_on_bad_threshold demo_web dedup demo_int 3 bad_arguments
           (lit "http") (lit "//promotion.example")).
  - right. left. reflexivity.
  - cbn. intuition discriminate.
  - cbn. intuition discriminate.
  - reflexivity.
Defined.

Lemma parse_terms_last_wins_witness :
  exists d,
    parse_terms demo_int ([lit "promotion:1"; lit "bonus"] ++ [lit "promotion" ++ colon :: lit "5"]) []
    = Some d
    /\ NoDup (keys d) /\ In (lit "promotion", 5%Z) d.
Proof.
  eexists. split; [vm_compute; reflexivity|].
  apply (parse_terms_last_wins demo_int [lit "promotion:1"; lit "bonus"]
           (lit "promotion") (lit "5") 5).
  - cbn. intuition discriminate.
  - cbn. intuition discriminate.
  - reflexivity.
  - vm_compute. reflexivity.
Defined.

Lemma score_zero_iff_within_thresholds_witness :
  exists st', check_terms demo demo_base demo_about_page empty_process = Ok (2%Z, st')
              /\ (0 <= 2)%Z.
Proof.
  assert (E : exists st', check_terms demo demo_base demo_about_page empty_process
                          = Ok (2%Z, st'))
    by (eexists; vm_compute; reflexivity).
  destruct E as [st' E]. exists st'. split; [exact E|].
  exact (proj1 (score_zero_iff_within_thresholds demo demo_base demo_about_page
                  empty_process st' 2 E)).
Defined.

Lemma negative_threshold_flags_every_page_witness :
  exists st', check_terms demo_negative demo_base [] empty_process = Ok (1%Z, st')
              /\ (0 < - (-1) <= 1)%Z.
Proof.
  assert (E : exists st', check_terms demo_negative demo_base [] empty_process
                          = Ok (1%Z, st'))
    by (eexists; vm_compute; reflexivity).
  destruct E as [st' E]. exists st'. split; [exact E|].
  apply (negative_threshold_flags_every_page demo_negative demo_base [] (lit "promotion")
           (-1) empty_process st' 1); [left; reflexivity | lia | exact E].
Defined.

Lemma check_page_appends_fetched_witness :
  exists st' new sent,
    crawl demo_web dedup 3 demo empty_process = Ok st'
    /\ URLS_CHECKED st' = [] ++ new
    /\ requests st' = sent ++ []
    /\ keys new = rev (map fst (filter snd sent)).
Proof.
  assert (E : exists st', crawl demo_web dedup 3 demo empty_process = Ok st')
    by (eexists; vm_compute; reflexivity).
  destruct E as [st' E].
  destruct (check_page_appends_fetched demo_web dedup demo 3 demo_base empty_process st' E)
    as (new & sent & A & B & C & _).
  exists st', new, sent. auto.
Defined.

Lemma crawl_requests_stay_on_site_witness :
  exists st' sent,
    crawl demo_web dedup 3 demo empty_process = Ok st'
    /\ requests st' = sent ++ []
    /\ forall v ok, In (v, ok) sent -> is_substring demo_base v.
Proof.
  assert (E : exists st', crawl demo_web dedup 3 demo empty_process = Ok st')
    by (eexists; vm_compute; reflexivity).
  destruct E as [st' E].
  destruct (crawl_requests_stay_on_site demo_web dedup demo 3 empty_process st' E)
    as (sent & B & H).
  exists st', sent. split; [exact E|]. split; [exact B|].
  intros v ok Hin. now apply (H v ok).
Defined.


Lemma verbosity_does_not_steer_witness :
  same_outcome (check_page demo_web dedup 3 demo demo_base empty_process)
               (check_page demo_web dedup 3 demo_loud demo_base empty_process).
Proof.
  apply (verbosity_does_not_steer demo_web dedup demo demo_loud 3).
  - repeat split.
  - split; reflexivity.
Defined.

Lemma silent_below_one_witness :
  exists st',
    check_page demo_web dedup 3 demo_quiet demo_base empty_process = Ok st'
    /\ stdout st' = []
    /\ stdout (print_summary demo_quiet st') = [].
Proof.
  assert (E : exists st', check_page demo_web dedup 3 demo_quiet demo_base empty_process = Ok st')
    by (eexists; vm_compute; reflexivity).
  destruct E as [st' E].
  destruct (silent_below_one demo_web dedup demo_quiet) as [H1 H2]; [cbn; lia|].
  exists st'. split; [exact E|].
  pose proof (H1 3 demo_base empty_process st' E) as K. cbn [stdout empty_process] in K.
  split; [exact K|]. now rewrite H2.
Defined.

Lemma main_totals_witness :
  exists st out c f,
    main demo_web dedup demo_int 3 demo_arguments = Some (Ok st)
    /\ stdout st = out ++ [MsgTotals; MsgPagesChecked 2; MsgPagesCleared c; MsgPagesFlagged f]
    /\ 2 = c + f.
Proof.
  assert (E : exists st, main demo_web dedup demo_int 3 demo_arguments = Some (Ok st)
                         /\ length (URLS_CHECKED st) = 2)
    by (eexists; split; [vm_compute; reflexivity | reflexivity]).
  destruct E as (st & E & L).
  destruct (main_totals demo_web dedup demo_int 3 demo_arguments st E) as
    (out & n & c & f & S & N1 & N2 & N3); [cbn; lia|].
  exists st, out, c, f. rewrite N1, L in S, N3. auto.
Defined.

Lemma main_with_unreachable_seed_witness :
  exists st,
    main demo_web dedup demo_int 1 down_arguments = Some (Ok st)
    /\ URLS_CHECKED st = []
    /\ requests st = [(lit "http://down.example", false)].
Proof.
  destruct (main_with_unreachable_seed demo_web dedup demo_int 0 down_arguments
              [(lit "bonus", 0%Z)] eq_refl eq_refl) as (st & E & U & R & _).
  exists st. auto.
Defined.

Lemma child_links_shape_witness :
  ~ In hash (lit "/about") /\ ~ In newline (lit "/about").
Proof.
  destruct (child_links_shape dedup dedup_sound demo demo_seed_page
              [lit "/about"; lit "/broken"] eq_refl (lit "/about") (or_introl eq_refl))
    as (A & B & _).
  now split.
Defined.

(** ** Report Builder: what the summary prints *)

(** X15. [print_summary] only prints: it leaves the visited set and the
    request log as they are, so a second call prints the same messages a
    second time. With a verbosity of at least 1 and no negative count it
    prints one message for each page visited and six more (three headings
    and three totals). *)
Theorem print_summary_only_prints (self : NightCrawler) (st : process) :
  URLS_CHECKED (print_summary self st) = URLS_CHECKED st
  /\ requests (print_summary self st) = requests st
  /\ (exists lines,
        stdout (print_summary self st) = stdout st ++ lines
        /\ stdout (print_summary self (print_summary self st)) = stdout st ++ lines ++ lines
        /\ ((1 <= verbose_level self)%Z ->
            Forall (fun e => (0 <= snd e)%Z) (URLS_CHECKED st) ->
            length lines = 6 + length (URLS_CHECKED st))).
Proof.
  destruct (print_summary_same_data self st) as [D1 D2].
  split; [exact D1|]. split; [exact D2|].
  exists (if (1 <=? verbose_level self)%Z then summary_lines (URLS_CHECKED st) else []).
  split; [apply print_summary_stdout|]. split.
  - rewrite print_summary_stdout, D1, print_summary_stdout. now rewrite app_assoc.
  - intros V P. apply Z.leb_le in V. rewrite V. unfold summary_lines.
    cbn [length]. rewrite length_app, length_map. cbn [length].
    rewrite length_app, length_map. cbn [length]. unfold keys. rewrite length_map.
    pose proof (partition_lengths (URLS_CHECKED st) P). lia.
Qed.

Lemma print_summary_only_prints_witness :
  exists lines,
    stdout (print_summary demo {| URLS_CHECKED := [(demo_base, 0%Z)]; requests := [];
                                 stdout := [] |}) = [] ++ lines
    /\ length lines = 6 + 1.
Proof.
  destruct (print_summary_only_prints demo
              {| URLS_CHECKED := [(demo_base, 0%Z)]; requests := []; stdout := [] |})
    as (_ & _ & lines & A & _ & L).
  exists lines. split; [exact A|]. apply L; [cbn; lia|].
  repeat constructor. cbn. lia.
Defined.

(** ** Term Matcher: bounds on the plain-text count *)

Lemma find_all_empty : forall s pos, length (find_all [] pos 0 s) = S (length s).
Proof.
  induction s as [|x s IH]; intros pos; [reflexivity|].
  cbn [find_all startswith length pred]. now rewrite IH.
Qed.

Lemma find_all_bound (t : str) : forall s pos skip,
  length (find_all t pos skip s) * length t <= length s - skip.
Proof.
  induction s as [|x s IH]; intros pos skip; destruct skip as [|n]; cbn [find_all].
  - destruct (startswith t []) eqn:E; [|cbn; lia].
    destruct t; [cbn; lia | discriminate].
  - cbn. lia.
  - destruct (startswith t (x :: s)) eqn:E.
    + apply startswith_length in E. cbn [length] in *.
      specialize (IH (S pos) (pred (length t))). nia.
    + specialize (IH (S pos) 0). cbn [length]. lia.
  - specialize (IH (S pos) n). cbn [length]. lia.
Qed.

(** X16. An empty term matches at every place: in plain-text mode its
    count on a page is the length of the content plus one, so with a
    threshold of 0 every page that is fetched is flagged. *)
Theorem empty_term_matches_everywhere (self : NightCrawler) (content : str) :
  use_link_lookup self = false ->
  term_count self content [] = Some (Z.of_nat (S (length content)))
  /\ (0 < count_beyond (Z.of_nat (S (length content))) 0)%Z.
Proof.
  intros Hm. split.
  - rewrite (term_count_plain self content [] Hm eq_refl). now rewrite find_all_empty.
  - unfold count_beyond. lia.
Qed.

Lemma empty_term_matches_everywhere_witness :
  term_count demo (lit "abc") [] = Some 4%Z.
Proof.
  apply (empty_term_matches_everywhere demo (lit "abc") eq_refl).
Defined.

(** X17. In plain-text mode the occurrences counted for a literal term do
    not overlap, so the count times the length of the term never exceeds
    the length of the content. *)
Theorem plain_count_fits_content (self : NightCrawler) (content t : str) (count : Z) :
  use_link_lookup self = false ->
  all_literal t = true ->
  term_count self content t = Some count ->
  (0 <= count)%Z /\ (count * Z.of_nat (length t) <= Z.of_nat (length content))%Z.
Proof.
  intros Hm Ht. rewrite (term_count_plain self content t Hm Ht).
  intros H; injection H as <-. split; [lia|].
  pose proof (find_all_bound t content 0 0). rewrite Nat.sub_0_r in H.
  rewrite <- Nat2Z.inj_mul. lia.
Qed.

Lemma plain_count_fits_content_witness :
  (3 * Z.of_nat (length (lit "promotion")) <= Z.of_nat (length demo_about_page))%Z.
Proof.
  apply (plain_count_fits_content demo demo_about_page (lit "promotion") 3 eq_refl eq_refl).
  reflexivity.
Defined.
